(** * EDL synchronization and editing engine

    A shallow embedding of the editing core of the video auto-edit
    application: the segment model ([types.ts]), the playback synchronizer
    and the word highlighter ([components/VideoPlayer.tsx]), the waveform
    decimator ([components/Waveform.tsx]) and the history manager with its
    edit handlers ([App.tsx]), together with the callers of those handlers
    in the sidebar ([components/Sidebar.tsx]) and the seek handler of the
    timeline ([components/Timeline.tsx]).

    Conventions of the embedding.
    - A JavaScript [number] that carries a time, a percentage or an audio
      sample is a rational [Q]: the finite, non-NaN doubles.  Comparisons are
      the boolean tests below; lengths, indices and pixel widths are [nat] or
      [Z] (the history cursor starts at [-1]).
    - An optional field ([x?: number]) and a nullable React state are
      [option]s: [None] stands for [undefined] / [null].
    - Arrays are lists; [Array.prototype.find] is [find], [slice(0, k)] is
      [take], [filter((_, i) => i !== k)] is [delete k], and an indexed
      store [a[k] = v] on a copy is [<[k:=v]>] inside the array bounds.
    - React state setters and DOM writes issued by a handler are recorded as
      a list of [effect]s, which [run_effects] replays on the component
      state. *)

From Stdlib Require Import QArith Qround Qminmax Lqa.
From Stdlib Require Import Ascii String DecimalString DecimalZ DecimalPos.
From stdpp Require Import base list strings gmap sorting.

#[local] Open Scope Q_scope.
#[local] Set Warnings "-register-all".

(** ** Numbers *)

(** [a >= b], [a <= b], [a < b] and [a > b] on JavaScript numbers. *)
Definition geb (a b : Q) : bool := Qle_bool b a.
Definition leb (a b : Q) : bool := Qle_bool a b.
Definition ltb (a b : Q) : bool := negb (Qle_bool b a).
Definition gtb (a b : Q) : bool := negb (Qle_bool a b).

(** ** Segment model ([types.ts]) *)

Record CutSegment := mkCut {
  cut_start : Q;
  cut_end : Q;
  cut_reason : string
}.

Record Chapter := mkChapter {
  chapter_timestamp : Q;
  chapter_title : string
}.

Inductive ZoomTarget :=
  | center | top_left | top_right | bottom_left | bottom_right.

Record SmartZoom := mkZoom {
  zoom_start : Q;
  zoom_end : Q;
  zoom_target : ZoomTarget;
  zoom_description : string;
  zoom_x : option Q;
  zoom_y : option Q
}.

Record Subtitle := mkSubtitle {
  sub_start : Q;
  sub_end : Q;
  sub_text : string
}.

Record Highlight := mkHighlight {
  hl_start : Q;
  hl_end : Q;
  hl_label : string
}.

Record AnalysisResult := mkAnalysis {
  cuts : list CutSegment;
  chapters : list Chapter;
  zooms : list SmartZoom;
  subtitles : list Subtitle;
  highlights : list Highlight
}.

(** ** Playback synchronizer ([VideoPlayer.handleTimeUpdate]) *)

(** The three arrow functions handed to [find]. *)
Definition cut_matches (time : Q) (c : CutSegment) : bool :=
  geb time (cut_start c) && ltb time (cut_end c).

Definition subtitle_matches (time : Q) (s : Subtitle) : bool :=
  geb time (sub_start s) && leb time (sub_end s).

Definition zoom_matches (time : Q) (z : SmartZoom) : bool :=
  geb time (zoom_start z) && leb time (zoom_end z).

(** The style object given to [setZoomStyle].  [transform: 'scale(k)'] keeps
    its factor, [transformOrigin] is either ['center center'] or the
    template [`${x}% ${y}%`], and [transition: 'transform 0.8s ease-in-out']
    keeps its duration in seconds. *)
Inductive TransformOrigin :=
  | OriginCenter
  | OriginPercent (x y : Q).

Record CSSProperties := mkStyle {
  transform_scale : Q;
  transformOrigin : TransformOrigin;
  transition_seconds : Q
}.

(** What one run of a handler of the player does to its surroundings. *)
Inductive effect :=
  | OnTimeUpdate (time : Q)
  | SetSkipNotification (msg : option string)
  | SetVideoCurrentTime (time : Q)
  | SetTimeout (callback : effect) (ms : Z)
  | SetCurrentSubtitle (s : option Subtitle)
  | SetZoomPoint (p : option (Q * Q))
  | SetZoomStyle (style : CSSProperties).

(** [a ?? d] *)
Definition nullish {A} (a : option A) (d : A) : A :=
  match a with Some v => v | None => d end.

(** [handleTimeUpdate]: [video] is [videoRef.current.currentTime] when the
    ref is attached, [analysis] the prop of the same name. *)
Definition handleTimeUpdate (video : option Q)
    (analysis : option AnalysisResult) : list effect :=
  match video with
  | None => []
  | Some time =>
    OnTimeUpdate time ::
    match analysis with
    | None => []
    | Some analysis =>
      (* 1. Handle Cuts (Auto-Skip) *)
      match find (cut_matches time) (cuts analysis) with
      | Some activeCut =>
        [ SetSkipNotification (Some ("Skipping: " +:+ cut_reason activeCut));
          SetVideoCurrentTime (cut_end activeCut);
          SetTimeout (SetSkipNotification None) 1000 ]
      | None =>
        (* 2. Handle Subtitles *)
        let activeSub := find (subtitle_matches time) (subtitles analysis) in
        SetCurrentSubtitle activeSub ::
        (* 3. Handle Smart Zooms (XY Coordinates) *)
        match find (zoom_matches time) (zooms analysis) with
        | Some activeZoom =>
          let x := nullish (zoom_x activeZoom) 50 in
          let y := nullish (zoom_y activeZoom) 50 in
          [ SetZoomPoint (Some (x, y));
            SetZoomStyle (mkStyle (5 # 2) (OriginPercent x y) (4 # 5)) ]
        | None =>
          [ SetZoomPoint None;
            SetZoomStyle (mkStyle 1 OriginCenter (4 # 5)) ]
        end
      end
    end
  end.

(** The state of the player component the effects act on. *)
Record PlayerState := mkPlayer {
  videoTime : Q;
  reportedTime : Q;
  currentSubtitle : option Subtitle;
  zoomStyle : option CSSProperties;
  zoomPoint : option (Q * Q);
  skipNotification : option string;
  timers : list (effect * Z)
}.

Definition run_effect (st : PlayerState) (e : effect) : PlayerState :=
  match e with
  | OnTimeUpdate t =>
      mkPlayer (videoTime st) t (currentSubtitle st) (zoomStyle st)
        (zoomPoint st) (skipNotification st) (timers st)
  | SetSkipNotification m =>
      mkPlayer (videoTime st) (reportedTime st) (currentSubtitle st)
        (zoomStyle st) (zoomPoint st) m (timers st)
  | SetVideoCurrentTime t =>
      mkPlayer t (reportedTime st) (currentSubtitle st) (zoomStyle st)
        (zoomPoint st) (skipNotification st) (timers st)
  | SetTimeout cb ms =>
      mkPlayer (videoTime st) (reportedTime st) (currentSubtitle st)
        (zoomStyle st) (zoomPoint st) (skipNotification st)
        (timers st ++ [(cb, ms)])
  | SetCurrentSubtitle s =>
      mkPlayer (videoTime st) (reportedTime st) s (zoomStyle st)
        (zoomPoint st) (skipNotification st) (timers st)
  | SetZoomPoint p =>
      mkPlayer (videoTime st) (reportedTime st) (currentSubtitle st)
        (zoomStyle st) p (skipNotification st) (timers st)
  | SetZoomStyle s =>
      mkPlayer (videoTime st) (reportedTime st) (currentSubtitle st)
        (Some s) (zoomPoint st) (skipNotification st) (timers st)
  end.

Definition run_effects (st : PlayerState) (es : list effect) : PlayerState :=
  foldl run_effect st es.

(** One tick of the player: the [timeupdate] event fires with the video
    element at [videoTime st]. *)
Definition tick (analysis : option AnalysisResult) (st : PlayerState)
    : PlayerState :=
  run_effects st (handleTimeUpdate (Some (videoTime st)) analysis).

(** The effects that belong to steps 2 and 3 of the tick. *)
Definition is_subtitle_or_zoom_effect (e : effect) : bool :=
  match e with
  | SetCurrentSubtitle _ | SetZoomPoint _ | SetZoomStyle _ => true
  | _ => false
  end.

(** ** Word highlighting ([VideoPlayer.ActiveSubtitleText]) *)

(** [text.split(sep)] for a one-character separator: the pieces between the
    separators, empty pieces included; never the empty array. *)
Fixpoint split (sep : Ascii.ascii) (text : string) : list string :=
  match text with
  | EmptyString => [EmptyString]
  | String c rest =>
    let pieces := split sep rest in
    if Ascii.eqb c sep then EmptyString :: pieces
    else match pieces with
         | w :: ws => String c w :: ws
         | [] => [String c EmptyString]
         end
  end.

(** What the component renders: the index it computes and, for every word,
    whether its span carries the highlighted class ([i === activeIndex]). *)
Record RenderedSubtitle := mkRendered {
  activeIndex : Z;
  spans : list (string * bool)
}.

Definition ActiveSubtitleText (text : string) (start end_ currentTime : Q)
    : RenderedSubtitle :=
  let words := split " "%char text in
  let totalDuration := end_ - start in
  let elapsed := Qmax 0 (currentTime - start) in
  let progress := Qmin 1 (elapsed / totalDuration) in
  let activeIndex := Qfloor (progress * inject_Z (Z.of_nat (length words))) in
  mkRendered activeIndex
    (imap (fun i word => (word, Z.eqb (Z.of_nat i) activeIndex)) words).

(** The words that are drawn highlighted. *)
Definition highlighted (r : RenderedSubtitle) : list string :=
  fst <$> filter (fun p => snd p = true) (spans r).

(** ** Waveform decimator ([Waveform.draw]) *)

Record Rect := mkRect {
  rect_style : string;
  rect_x : Q;
  rect_y : Q;
  rect_w : Q;
  rect_h : Q
}.

(** The canvas: its pixel size and what has been painted on it since it was
    last cleared. *)
Record Canvas := mkCanvas {
  canvas_width : nat;
  canvas_height : nat;
  painted : list Rect
}.

Definition of_nat (n : nat) : Q := inject_Z (Z.of_nat n).

(** [Math.ceil(data.length / width)].  The loops below run [width] times, so
    the value for [width = 0] is never used. *)
Definition step_of (len width : nat) : nat :=
  Z.to_nat (Qceiling (of_nat len / of_nat width)).

(** One round of the inner loop.  A read past the end of the buffer yields
    [undefined], for which both comparisons are false. *)
Definition scan (data : list Q) (base : nat) (acc : Q * Q) (j : nat) : Q * Q :=
  match data !! (base + j)%nat with
  | None => acc
  | Some datum =>
    let min := if ltb datum (fst acc) then datum else fst acc in
    let max := if gtb datum (snd acc) then datum else snd acc in
    (min, max)
  end.

(** The pair [(min, max)] the inner loop leaves for column [i]. *)
Definition peak (data : list Q) (step i : nat) : Q * Q :=
  foldl (scan data (i * step)%nat) (1, - (1)) (seq 0 step).

Definition peaks (data : list Q) (width : nat) : list (Q * Q) :=
  peak data (step_of (length data) width) <$> seq 0 width.

(** The body of the outer loop after the scan: the pixel line of column [i]. *)
Definition column (amp : Q) (i : nat) (p : Q * Q) : Rect :=
  let yMin := (1 + fst p) * amp in
  let yMax := (1 + snd p) * amp in
  let h := Qmax 1 (yMax - yMin) in
  mkRect "#4b5563" (of_nat i) yMin 1 h.

Definition cut_overlay (duration : Q) (width height : nat) (cut : CutSegment)
    : list Rect :=
  let startX := (cut_start cut / duration) * of_nat width in
  let endX := (cut_end cut / duration) * of_nat width in
  [ mkRect "rgba(239, 68, 68, 0.3)" startX 0 (endX - startX) (of_nat height);
    mkRect "rgba(239, 68, 68, 0.6)" startX 0 (endX - startX) 2;
    mkRect "rgba(239, 68, 68, 0.6)" startX (of_nat height - 2)
      (endX - startX) 2 ].

Definition cut_overlays (analysis : option AnalysisResult) (duration : Q)
    (width height : nat) : list Rect :=
  match analysis with
  | Some a =>
    if bool_decide (0 < length (cuts a))%nat && gtb duration 0
    then cuts a ≫= cut_overlay duration width height
    else []
  | None => []
  end.

(** [draw]: [clearRect] over the whole canvas, one pixel line per column,
    then the cut overlays. *)
Definition draw (data : list Q) (analysis : option AnalysisResult)
    (duration : Q) (canvas : Canvas) : Canvas :=
  let width := canvas_width canvas in
  let height := canvas_height canvas in
  let amp := of_nat height / 2 in
  let cleared : list Rect := [] in
  mkCanvas width height
    (cleared
     ++ imap (column amp) (peaks data width)
     ++ cut_overlays analysis duration width height).

(** ** History manager ([App.tsx]) *)

(** The part of the state of [App] the editing core reads and writes;
    [saved] is the entry [bina_ai_analysis] of [localStorage]. *)
Record AppState := mkApp {
  analysis : option AnalysisResult;
  history : list AnalysisResult;
  historyIndex : Z;
  pickingZoomIndex : option nat;
  saved : option AnalysisResult
}.

(** The state [useState] starts from. *)
Definition initialState (stored : option AnalysisResult) : AppState :=
  mkApp None [] (-1) None stored.

(** [l.slice(0, k)]: a negative [k] counts from the end of the array. *)
Definition slice0 {A} (l : list A) (k : Z) : list A :=
  if (k <? 0)%Z then take (Z.to_nat (Z.of_nat (length l) + k)) l
  else take (Z.to_nat k) l.

(** [l[k]]: [undefined] outside the array. *)
Definition at_index {A} (l : list A) (k : Z) : option A :=
  if (k <? 0)%Z then None else l !! Z.to_nat k.

Definition pushToHistory (newAnalysis : AnalysisResult) (st : AppState)
    : AppState :=
  let newHistory := slice0 (history st) (historyIndex st + 1) ++ [newAnalysis] in
  mkApp (Some newAnalysis) newHistory (Z.of_nat (length newHistory) - 1)
    (pickingZoomIndex st) (Some newAnalysis).

Definition undo (st : AppState) : AppState :=
  if (historyIndex st >? 0)%Z then
    let newIndex := (historyIndex st - 1)%Z in
    mkApp (at_index (history st) newIndex) (history st) newIndex
      (pickingZoomIndex st) (at_index (history st) newIndex)
  else st.

Definition redo (st : AppState) : AppState :=
  if (historyIndex st <? Z.of_nat (length (history st)) - 1)%Z then
    let newIndex := (historyIndex st + 1)%Z in
    mkApp (at_index (history st) newIndex) (history st) newIndex
      (pickingZoomIndex st) (at_index (history st) newIndex)
  else st.

(** [handleFileUpload], for a file within the size limit. *)
Definition handleFileUpload (st : AppState) : AppState :=
  mkApp None [] (-1) (pickingZoomIndex st) (saved st).

(** [handleAnalyze], when the analysis service answers with [result]. *)
Definition handleAnalyze (result : AnalysisResult) (st : AppState) : AppState :=
  mkApp (Some result) [result] 0 (pickingZoomIndex st) (Some result).

(** ** Edit handlers ([App.tsx]) *)

(** How a handler ends: it returns (with the state it leaves), it throws a
    [TypeError], or it completes with an array that no longer has the
    declared element type (a store past the end of a copied array leaves
    holes and an object without [start] and [end]). *)
Inductive outcome :=
  | Returns (st : AppState)
  | Throws
  | OutsideTypes.

Definition handleSubtitleUpdate (index : nat) (newText : string)
    (st : AppState) : outcome :=
  match analysis st with
  | None => Returns st
  | Some a =>
    let updatedSubtitles := subtitles a in
    match updatedSubtitles !! index with
    | Some old =>
      let updatedSubtitles :=
        <[index := mkSubtitle (sub_start old) (sub_end old) newText]>
          updatedSubtitles in
      let newAnalysis :=
        mkAnalysis (cuts a) (chapters a) (zooms a) updatedSubtitles
          (highlights a) in
      Returns (pushToHistory newAnalysis st)
    | None => OutsideTypes
    end
  end.

Definition handleSubtitleDelete (index : nat) (st : AppState) : outcome :=
  match analysis st with
  | None => Returns st
  | Some a =>
    let updatedSubtitles := delete index (subtitles a) in
    Returns (pushToHistory
      (mkAnalysis (cuts a) (chapters a) (zooms a) updatedSubtitles
         (highlights a)) st)
  end.

Definition handleCutDelete (index : nat) (st : AppState) : outcome :=
  match analysis st with
  | None => Returns st
  | Some a =>
    let updatedCuts := delete index (cuts a) in
    Returns (pushToHistory
      (mkAnalysis updatedCuts (chapters a) (zooms a) (subtitles a)
         (highlights a)) st)
  end.

(** The transform inside [handlePromoteCutToHighlight]; reading [cut.start]
    of a missing cut throws.  [analysis.highlights || []] is
    [analysis.highlights], an array being truthy. *)
Definition promote (index : nat) (a : AnalysisResult) : option AnalysisResult :=
  match cuts a !! index with
  | None => None
  | Some cut =>
    (* 1. Remove from cuts *)
    let updatedCuts := delete index (cuts a) in
    (* 2. Add to highlights *)
    let newHighlight :=
      mkHighlight (cut_start cut) (cut_end cut) "Highlighted Segment" in
    let updatedHighlights := highlights a ++ [newHighlight] in
    Some (mkAnalysis updatedCuts (chapters a) (zooms a) (subtitles a)
            updatedHighlights)
  end.

Definition handlePromoteCutToHighlight (index : nat) (st : AppState)
    : outcome :=
  match analysis st with
  | None => Returns st
  | Some a =>
    match promote index a with
    | None => Throws
    | Some newAnalysis => Returns (pushToHistory newAnalysis st)
    end
  end.

(** The states the application can be in: every edit handler has the shape
    [if (!analysis) return; ...; pushToHistory(newAnalysis)]. *)
Inductive reachable : AppState -> Prop :=
  | reach_init stored : reachable (initialState stored)
  | reach_upload st : reachable st -> reachable (handleFileUpload st)
  | reach_analyze result st :
      reachable st -> reachable (handleAnalyze result st)
  | reach_edit newAnalysis st :
      reachable st -> is_Some (analysis st) ->
      reachable (pushToHistory newAnalysis st)
  | reach_undo st : reachable st -> reachable (undo st)
  | reach_redo st : reachable st -> reachable (redo st).

(** The cursor points into the history at the current EDL (or the history
    is empty and there is no EDL). *)
Definition history_inv (st : AppState) : Prop :=
  match analysis st with
  | None => history st = [] /\ historyIndex st = (-1)%Z
  | Some a => at_index (history st) (historyIndex st) = Some a
  end.

(** ** Loading the persisted state ([App.tsx], the mount effect) *)

(** What [JSON.parse] produces. *)
Inductive json :=
  | JNull
  | JBool (b : bool)
  | JNumber (n : Q)
  | JString (s : string)
  | JArray (items : list json)
  | JObject (fields : list (string * json)).

(** The truth value of a property read; [None] is [undefined]. *)
Definition truthy (v : option json) : bool :=
  match v with
  | None | Some JNull => false
  | Some (JBool b) => b
  | Some (JNumber n) => negb (Qeq_bool n 0)
  | Some (JString s) => negb (String.eqb s "")
  | Some (JArray _) | Some (JObject _) => true
  end.

(** The state the mount effect sets: the parsed object is handed to
    [setAnalysis] and [setHistory] as it is. *)
Record LoadedState := mkLoaded {
  loaded_analysis : option (gmap string json);
  loaded_history : list (gmap string json);
  loaded_index : Z
}.

(** The defaulting step of the mount effect. *)
Definition ensure_highlights (parsed : gmap string json) : gmap string json :=
  if negb (truthy (parsed !! "highlights"))
  then <["highlights" := JArray []]> parsed
  else parsed.

(** The mount effect, for a stored entry that parses to the object
    [savedAnalysis] (the entry is only ever written with a stringified
    EDL); [None] when the entry is absent. *)
Definition loadSaved (savedAnalysis : option (gmap string json))
    : LoadedState :=
  match savedAnalysis with
  | Some parsed =>
    let parsed := ensure_highlights parsed in
    mkLoaded (Some parsed) [parsed] 0
  | None => mkLoaded None [] (-1)
  end.

(** A collection is present when the property holds an array. *)
Definition collection_present (name : string) (edl : gmap string json) : Prop :=
  exists items, edl !! name = Some (JArray items).

Definition collections : list string :=
  ["cuts"; "chapters"; "zooms"; "subtitles"; "highlights"].

(** ** The zoom rule as the specification words it *)

(** The percentage pair of a target: center is (50,50), a corner is the pair
    of 0 and 100 that names it. *)
Definition target_point (t : ZoomTarget) : Q * Q :=
  match t with
  | center => (50, 50)
  | top_left => (0, 0)
  | top_right => (100, 0)
  | bottom_left => (0, 100)
  | bottom_right => (100, 100)
  end.

(** The style the specification describes for an active zoom: the
    coordinates at 2.5x when both are present, else the point of the target
    at the legacy 1.5x. *)
Definition spec_zoom_style (z : SmartZoom) : CSSProperties :=
  match zoom_x z, zoom_y z with
  | Some x, Some y => mkStyle (5 # 2) (OriginPercent x y) (4 # 5)
  | _, _ =>
    mkStyle (3 # 2)
      (OriginPercent (fst (target_point (zoom_target z)))
         (snd (target_point (zoom_target z))))
      (4 # 5)
  end.

(** ** The EDL as objects on the heap

    The edit handlers never write to the object they are given: they copy
    the array they change ([[...analysis.subtitles]]), build the changed
    element with a spread, store it into the copy, and build a new EDL
    object with a spread.  To state that, the EDL is laid out as the
    JavaScript heap has it: an EDL object holds five array references, the
    subtitle array holds references to subtitle objects.  The four arrays
    this handler only passes on by reference are kept as values. *)

Definition loc := positive.

Inductive object :=
  | OSubtitle (s : Subtitle)
  | OSubtitles (elements : list loc)
  | OCuts (l : list CutSegment)
  | OChapters (l : list Chapter)
  | OZooms (l : list SmartZoom)
  | OHighlights (l : list Highlight)
  | OAnalysis (cuts chapters zooms subtitles highlights : loc).

(** [alloc] puts a new object at an unused address. *)
Definition alloc (h : gmap loc object) (o : object) : gmap loc object * loc :=
  let l := fresh (dom h) in (<[l := o]> h, l).

Definition read_subtitle (h : gmap loc object) (l : loc) : option Subtitle :=
  match h !! l with
  | Some (OSubtitle s) => Some s
  | _ => None
  end.

Definition read_subtitles (h : gmap loc object) (l : loc)
    : option (list Subtitle) :=
  match h !! l with
  | Some (OSubtitles elements) => mapM (read_subtitle h) elements
  | _ => None
  end.

(** The EDL value an EDL object stands for. *)
Definition read_analysis (h : gmap loc object) (l : loc)
    : option AnalysisResult :=
  match h !! l with
  | Some (OAnalysis c ch z s hl) =>
    match h !! c, h !! ch, h !! z, read_subtitles h s, h !! hl with
    | Some (OCuts cs), Some (OChapters chs), Some (OZooms zs), Some ss,
      Some (OHighlights hs) => Some (mkAnalysis cs chs zs ss hs)
    | _, _, _, _, _ => None
    end
  | _ => None
  end.

(** The body of [handleSubtitleUpdate] on the heap, up to the call of
    [pushToHistory]: the heap it leaves and the new EDL object. *)
Definition handleSubtitleUpdate_heap (h : gmap loc object) (analysis : loc)
    (index : nat) (newText : string) : option (gmap loc object * loc) :=
  match h !! analysis with
  | Some (OAnalysis c ch z s hl) =>
    match h !! s with
    | Some (OSubtitles elements) =>
      (* const updatedSubtitles = [...analysis.subtitles]; *)
      let '(h1, updatedSubtitles) := alloc h (OSubtitles elements) in
      match elements !! index with
      | Some old =>
        match h1 !! old with
        | Some (OSubtitle o) =>
          (* { ...updatedSubtitles[index], text: newText } *)
          let '(h2, changed) :=
            alloc h1 (OSubtitle (mkSubtitle (sub_start o) (sub_end o) newText)) in
          (* updatedSubtitles[index] = ...: a store into the copy *)
          let h3 :=
            <[updatedSubtitles := OSubtitles (<[index := changed]> elements)]> h2 in
          (* { ...analysis, subtitles: updatedSubtitles } *)
          Some (alloc h3 (OAnalysis c ch z updatedSubtitles hl))
        | _ => None
        end
      | None => None
      end
    | _ => None
    end
  | _ => None
  end.

(** ** Sample EDLs *)

Definition edl_empty : AnalysisResult := mkAnalysis [] [] [] [] [].

Definition edl_one_cut : AnalysisResult :=
  mkAnalysis [mkCut 0 2 "silence"] [] [] [mkSubtitle 2 5 "hello world"] [].

Definition edl_two_cuts : AnalysisResult :=
  mkAnalysis [mkCut 0 2 "silence"; mkCut 8 9 "cough"] [] []
    [mkSubtitle 2 5 "hello world"] [].

(** A heap that holds [edl_one_cut] as the object at address 7. *)
Definition heap_one_cut : gmap loc object :=
  <[1%positive := OCuts [mkCut 0 2 "silence"]]>
  (<[2%positive := OChapters []]>
  (<[3%positive := OZooms []]>
  (<[4%positive := OSubtitle (mkSubtitle 2 5 "hello world")]>
  (<[5%positive := OSubtitles [4%positive]]>
  (<[6%positive := OHighlights []]>
  (<[7%positive := OAnalysis 1%positive 2%positive 3%positive 5%positive
                     6%positive]> ∅)))))).

(** A stored EDL that lacks three of the five collections. *)
Definition saved_without_collections : gmap string json :=
  <["cuts" := JArray []]> (<["subtitles" := JArray []]> ∅).

(** ** The remaining edit handlers ([App.tsx]) *)

(** [{ ...old, ...updatedFields }]: a field of the partial object, when
    present, replaces the old one. *)
Definition spread {A} (field : option A) (old : A) : A :=
  match field with Some v => v | None => old end.

(** [Partial<CutSegment>], [Partial<Highlight>] and [Partial<SmartZoom>]. *)
Record PartialCut := mkPartialCut {
  pc_start : option Q;
  pc_end : option Q;
  pc_reason : option string
}.

Record PartialHighlight := mkPartialHighlight {
  ph_start : option Q;
  ph_end : option Q;
  ph_label : option string
}.

Record PartialZoom := mkPartialZoom {
  pz_start : option Q;
  pz_end : option Q;
  pz_target : option ZoomTarget;
  pz_description : option string;
  pz_x : option Q;
  pz_y : option Q
}.

Definition merge_cut (old : CutSegment) (p : PartialCut) : CutSegment :=
  mkCut (spread (pc_start p) (cut_start old)) (spread (pc_end p) (cut_end old))
    (spread (pc_reason p) (cut_reason old)).

Definition merge_highlight (old : Highlight) (p : PartialHighlight)
    : Highlight :=
  mkHighlight (spread (ph_start p) (hl_start old))
    (spread (ph_end p) (hl_end old)) (spread (ph_label p) (hl_label old)).

Definition merge_zoom (old : SmartZoom) (p : PartialZoom) : SmartZoom :=
  mkZoom (spread (pz_start p) (zoom_start old))
    (spread (pz_end p) (zoom_end old))
    (spread (pz_target p) (zoom_target old))
    (spread (pz_description p) (zoom_description old))
    (match pz_x p with Some x => Some x | None => zoom_x old end)
    (match pz_y p with Some y => Some y | None => zoom_y old end).

(** [{ ...undefined, ...updatedFields }]: the object a store past the end
    of the array writes; it has the declared type only when the partial
    object carries every required field. *)
Definition whole_cut (p : PartialCut) : option CutSegment :=
  match pc_start p, pc_end p, pc_reason p with
  | Some s, Some e, Some r => Some (mkCut s e r)
  | _, _, _ => None
  end.

Definition whole_highlight (p : PartialHighlight) : option Highlight :=
  match ph_start p, ph_end p, ph_label p with
  | Some s, Some e, Some l => Some (mkHighlight s e l)
  | _, _, _ => None
  end.

Definition whole_zoom (p : PartialZoom) : option SmartZoom :=
  match pz_start p, pz_end p, pz_target p, pz_description p with
  | Some s, Some e, Some t, Some d => Some (mkZoom s e t d (pz_x p) (pz_y p))
  | _, _, _, _ => None
  end.

(** [copy[index] = { ...copy[index], ...fields }] on a copy of the array:
    inside the array the element is merged; at [index = length] the array
    grows by the object built from the fields alone; further out it gets
    holes.  [None] when the result is no array of the declared type. *)
Definition store_merged {A P} (merge : A -> P -> A) (whole : P -> option A)
    (l : list A) (index : nat) (fields : P) : option (list A) :=
  match l !! index with
  | Some old => Some (<[index := merge old fields]> l)
  | None =>
    if bool_decide (index = length l)
    then (fun x => l ++ [x]) <$> whole fields
    else None
  end.

Definition handleZoomUpdate (index : nat) (updatedFields : PartialZoom)
    (st : AppState) : outcome :=
  match analysis st with
  | None => Returns st
  | Some a =>
    match store_merged merge_zoom whole_zoom (zooms a) index updatedFields with
    | Some updatedZooms =>
      Returns (pushToHistory
        (mkAnalysis (cuts a) (chapters a) updatedZooms (subtitles a)
           (highlights a)) st)
    | None => OutsideTypes
    end
  end.

Definition handleCutUpdate (index : nat) (updatedFields : PartialCut)
    (st : AppState) : outcome :=
  match analysis st with
  | None => Returns st
  | Some a =>
    match store_merged merge_cut whole_cut (cuts a) index updatedFields with
    | Some updatedCuts =>
      Returns (pushToHistory
        (mkAnalysis updatedCuts (chapters a) (zooms a) (subtitles a)
           (highlights a)) st)
    | None => OutsideTypes
    end
  end.

Definition handleHighlightUpdate (index : nat)
    (updatedFields : PartialHighlight) (st : AppState) : outcome :=
  match analysis st with
  | None => Returns st
  | Some a =>
    match store_merged merge_highlight whole_highlight (highlights a) index
            updatedFields with
    | Some updatedHighlights =>
      Returns (pushToHistory
        (mkAnalysis (cuts a) (chapters a) (zooms a) (subtitles a)
           updatedHighlights) st)
    | None => OutsideTypes
    end
  end.

Definition handleHighlightDelete (index : nat) (st : AppState) : outcome :=
  match analysis st with
  | None => Returns st
  | Some a =>
    let updatedHighlights := delete index (highlights a) in
    Returns (pushToHistory
      (mkAnalysis (cuts a) (chapters a) (zooms a) (subtitles a)
         updatedHighlights) st)
  end.

Definition setPickingZoomIndex (p : option nat) (st : AppState) : AppState :=
  mkApp (analysis st) (history st) (historyIndex st) p (saved st).

(** [App.handleVideoClick], the callback the player calls with the clamped
    click position. *)
Definition App_handleVideoClick (x y : Q) (st : AppState) : outcome :=
  match pickingZoomIndex st, analysis st with
  | Some index, Some _ =>
    match handleZoomUpdate index
            (mkPartialZoom None None None None (Some x) (Some y)) st with
    | Returns st' => Returns (setPickingZoomIndex None st')
    | other => other
    end
  | _, _ => Returns st
  end.

(** [sort((a, b) => a.start - b.start)] on zooms that carry a mark (the
    mark tells the object just created from the ones that were there).
    [Array.prototype.sort] is stable, which fixes its result: the one
    ordering by [start] that keeps equal elements in their old order.  It is
    computed here by inserting from the right. *)
Fixpoint insert_by_start (z : SmartZoom * bool) (l : list (SmartZoom * bool))
    : list (SmartZoom * bool) :=
  match l with
  | [] => [z]
  | y :: ys =>
    if leb (zoom_start z.1) (zoom_start y.1) then z :: y :: ys
    else y :: insert_by_start z ys
  end.

Definition sort_by_start (l : list (SmartZoom * bool))
    : list (SmartZoom * bool) :=
  foldr insert_by_start [] l.

(** [updatedZooms.indexOf(newZoom)]: the position of the marked object. *)
Fixpoint index_of_marked (l : list (SmartZoom * bool)) : option nat :=
  match l with
  | [] => None
  | y :: ys => if y.2 then Some 0%nat else S <$> index_of_marked ys
  end.

(** [handleAddZoom]; [currentTime] and [duration] are the two pieces of
    state of [App] it reads. *)
Definition handleAddZoom (currentTime duration : Q) (st : AppState)
    : outcome :=
  match analysis st with
  | None => Returns st
  | Some a =>
    let start := currentTime in
    let end_ := Qmin duration (start + 3) in
    let newZoom := mkZoom start end_ center "Manual Focus" (Some 50) (Some 50) in
    (* Append and sort *)
    let updatedZooms :=
      sort_by_start (((fun z => (z, false)) <$> zooms a) ++ [(newZoom, true)]) in
    (* Find new index to trigger picking mode *)
    let newIndex := index_of_marked updatedZooms in
    let newAnalysis :=
      mkAnalysis (cuts a) (chapters a) (fst <$> updatedZooms) (subtitles a)
        (highlights a) in
    Returns (setPickingZoomIndex newIndex (pushToHistory newAnalysis st))
  end.



(** The mount effect on the typed state: the stored entry, written by
    [JSON.stringify] from an EDL, parses back to that EDL, whose highlights
    are an array and so pass the defaulting step unchanged. *)
Definition mountEffect (stored : option AnalysisResult) : AppState :=
  match stored with
  | Some parsed => mkApp (Some parsed) [parsed] 0 None (Some parsed)
  | None => initialState None
  end.





(** The cursor is on the current EDL and the store holds the current EDL. *)
Definition session_inv (st : AppState) : Prop :=
  history_inv st /\
  (-1 <= historyIndex st < Z.of_nat (length (history st)))%Z /\
  (forall a, analysis st = Some a -> saved st = Some a).

(** ** Clicks on the video surface ([VideoPlayer.handleVideoClick]) *)

(** The fields of [getBoundingClientRect()] the click handlers read. *)
Record DOMRect := mkDOMRect {
  dom_left : Q;
  dom_top : Q;
  dom_width : Q;
  dom_height : Q
}.

(** What the click handler of the player calls. *)
Inductive click_call :=
  | CallOnVideoClick (x y : Q)
  | CallTogglePlay.

Definition VideoPlayer_handleVideoClick (isPickingZoom hasOnVideoClick : bool)
    (container : option DOMRect) (clientX clientY : Q) : click_call :=
  match container with
  | Some rect =>
    if isPickingZoom && hasOnVideoClick then
      let x := ((clientX - dom_left rect) / dom_width rect) * 100 in
      let y := ((clientY - dom_top rect) / dom_height rect) * 100 in
      (* Clamp to 0-100 *)
      let clampedX := Qmax 0 (Qmin 100 x) in
      let clampedY := Qmax 0 (Qmin 100 y) in
      CallOnVideoClick clampedX clampedY
    else CallTogglePlay
  | None => CallTogglePlay
  end.

(** A click on the video surface as [App] wires it: the player gets
    [isPickingZoom = (pickingZoomIndex !== null)] and
    [onVideoClick = handleVideoClick]; playing and pausing is no part of
    the state of [App]. *)
Definition surface_click (rect : DOMRect) (clientX clientY : Q)
    (st : AppState) : outcome :=
  match VideoPlayer_handleVideoClick
          (bool_decide (pickingZoomIndex st <> None)) true (Some rect)
          clientX clientY with
  | CallOnVideoClick x y => App_handleVideoClick x y st
  | CallTogglePlay => Returns st
  end.

(** The effect of the player on a change of [analysis] (an edit made while
    the video is paused). *)
Definition onAnalysisChange (video : option Q)
    (analysis : option AnalysisResult) : list effect :=
  match analysis, video with
  | Some a, Some time =>
    let activeSub := find (subtitle_matches time) (subtitles a) in
    (* Update Zoom Point visual *)
    let activeZoom := find (zoom_matches time) (zooms a) in
    [ SetCurrentSubtitle activeSub;
      SetZoomPoint
        match activeZoom with
        | Some z =>
          match zoom_x z, zoom_y z with
          | Some x, Some y => Some (x, y)
          | _, _ => None
          end
        | None => None
        end ]
  | _, _ => []
  end.

(** ** Seeking by a click ([Waveform.handleClick], [Timeline.handleClick]) *)

(** The time handed to [onSeek]; [None] when the handler returns early. *)
Definition Waveform_handleClick (canvas : option DOMRect)
    (duration clientX : Q) : option Q :=
  match canvas with
  | None => None
  | Some rect =>
    if Qeq_bool duration 0 then None
    else
      let x := clientX - dom_left rect in
      let percentage := Qmax 0 (Qmin 1 (x / dom_width rect)) in
      Some (percentage * duration)
  end.

Definition Timeline_handleClick (container : option DOMRect)
    (duration clientX : Q) : option Q :=
  match container with
  | None => None
  | Some rect =>
    if Qeq_bool duration 0 then None
    else
      let x := clientX - dom_left rect in
      let percentage := Qmax 0 (Qmin 1 (x / dom_width rect)) in
      Some (percentage * duration)
  end.

(** ** Time strings ([formatTime], [Sidebar.parseTimeString]) *)

(** [Math.trunc], and [a % b] on numbers: the remainder has the sign of the
    dividend. *)
Definition Qtrunc (q : Q) : Z :=
  if Qle_bool 0 q then Qfloor q else Qceiling q.

Definition js_rem (a b : Q) : Q := a - b * inject_Z (Qtrunc (a / b)).

(** The string of an integer (template literal, [toString()]): decimal
    digits, with a minus sign when negative. *)
Definition toString (z : Z) : string :=
  NilEmpty.string_of_int (Z.to_int z).

(** [s.padStart(targetLength, pad)] for a one-character pad. *)
Definition padStart (targetLength : nat) (pad : Ascii.ascii) (s : string)
    : string :=
  string_of_list_ascii (replicate (targetLength - String.length s) pad) +:+ s.

Definition formatTime (seconds : Q) : string :=
  let mins := Qfloor (seconds / 60) in
  let secs := Qfloor (js_rem seconds 60) in
  toString mins +:+ ":" +:+ padStart 2 "0" (toString secs).

(** [Number(s)] on the strings it is applied to here: a string of decimal
    digits denotes its value, the empty string 0.  [None] stands for every
    other string, which this development does not interpret (signs,
    fractions, exponents, white space, other radixes, and the strings that
    give [NaN]). *)
Definition Number (s : string) : option Q :=
  (fun d => inject_Z (Z.of_uint d)) <$> NilEmpty.uint_of_string s.

(** [parseTimeString]; [None] when one of the strings handed to [Number] is
    not interpreted.  On a number [Number(str) || 0] is that number. *)
Definition parseTimeString (str : string) : option Q :=
  let parts := Number <$> split ":" str in
  match parts with
  | [p0; p1] =>
    match p0, p1 with
    | Some n0, Some n1 => Some (n0 * 60 + n1)
    | _, _ => None
    end
  | _ => Number str
  end.

(** The editor of one cut in the sidebar ([Sidebar.CutItem]): its local
    state, [handleEdit], and the fields [handleSave] hands to [onUpdate]. *)
Record CutItemState := mkCutItem {
  isEditing : bool;
  startStr : string;
  endStr : string;
  reason : string
}.

Definition CutItem_handleEdit (cut : CutSegment) : CutItemState :=
  mkCutItem true (formatTime (cut_start cut)) (formatTime (cut_end cut))
    (cut_reason cut).

Definition CutItem_handleSave (s : CutItemState) : option PartialCut :=
  match parseTimeString (startStr s), parseTimeString (endStr s) with
  | Some start, Some end_ =>
    Some (mkPartialCut (Some start) (Some end_) (Some (reason s)))
  | _, _ => None
  end.

(** ** Subtitle search ([Sidebar]) *)

(** The list the subtitle tab renders: every subtitle with its index in the
    EDL, filtered by the search.  [includes text search] stands for
    [text.toLowerCase().includes(search.toLowerCase())]. *)
Definition filteredSubtitles (includes : string -> string -> bool)
    (subs : list Subtitle) (subtitleSearch : string)
    : list (Subtitle * nat) :=
  filter (fun p => includes (sub_text p.1) subtitleSearch = true)
    (imap (fun originalIndex sub => (sub, originalIndex)) subs).

(** ** Consecutive ticks *)



(** Whether a character occurs in a string. *)
Fixpoint occurs (c : Ascii.ascii) (s : string) : bool :=
  match s with
  | EmptyString => false
  | String c' rest => Ascii.eqb c' c || occurs c rest
  end.

(** ** Editing one subtitle in the sidebar ([Sidebar.SubtitleItem]) *)

(** The next handler runs on the state the previous one returned. *)
Definition and_then (o : outcome) (f : AppState -> outcome) : outcome :=
  match o with
  | Returns st => f st
  | other => other
  end.

(** [handleEdit] keeps the text as [backupText]; every change of the text
    area calls [onUpdate(index, e.target.value)]; [handleCancel] calls
    [onUpdate(index, backupText)].  [typed] are the successive values of
    the text area. *)
Definition SubtitleItem_type (index : nat) (typed : list string)
    (st : AppState) : outcome :=
  foldl (fun o value => and_then o (handleSubtitleUpdate index value))
    (Returns st) typed.

Definition SubtitleItem_handleCancel (index : nat) (backupText : string)
    (st : AppState) : outcome :=
  handleSubtitleUpdate index backupText st.

(** * Properties *)

(** ** Comparisons *)

Lemma geb_true (a b : Q) : geb a b = true <-> b <= a.
Proof. apply Qle_bool_iff. Qed.

Lemma leb_true (a b : Q) : leb a b = true <-> a <= b.
Proof. apply Qle_bool_iff. Qed.

Lemma ltb_true (a b : Q) : ltb a b = true <-> a < b.
Proof.
  unfold ltb. rewrite negb_true_iff, <- not_true_iff_false, Qle_bool_iff.
  split; [apply Qnot_le_lt | apply Qlt_not_le].
Qed.

Lemma gtb_true (a b : Q) : gtb a b = true <-> b < a.
Proof.
  unfold gtb. rewrite negb_true_iff, <- not_true_iff_false, Qle_bool_iff.
  split; [apply Qnot_le_lt | apply Qlt_not_le].
Qed.

Lemma ltb_false (a b : Q) : ltb a b = false <-> b <= a.
Proof.
  unfold ltb. rewrite negb_false_iff. apply Qle_bool_iff.
Qed.

Lemma gtb_false (a b : Q) : gtb a b = false <-> a <= b.
Proof.
  unfold gtb. rewrite negb_false_iff. apply Qle_bool_iff.
Qed.

(** ** Playback synchronizer *)

Lemma cut_matches_true (t : Q) (c : CutSegment) :
  cut_matches t c = true <-> cut_start c <= t /\ t < cut_end c.
Proof.
  unfold cut_matches. by rewrite andb_true_iff, geb_true, ltb_true.
Qed.

Lemma subtitle_matches_true (t : Q) (s : Subtitle) :
  subtitle_matches t s = true <-> sub_start s <= t /\ t <= sub_end s.
Proof.
  unfold subtitle_matches. by rewrite andb_true_iff, geb_true, leb_true.
Qed.

Lemma zoom_matches_true (t : Q) (z : SmartZoom) :
  zoom_matches t z = true <-> zoom_start z <= t /\ t <= zoom_end z.
Proof.
  unfold zoom_matches. by rewrite andb_true_iff, geb_true, leb_true.
Qed.

(** [find] returns the first element that passes the test. *)
Lemma find_first {A} (f : A -> bool) (pre : list A) (x : A) (post : list A) :
  Forall (fun y => f y = false) pre -> f x = true ->
  find f (pre ++ x :: post) = Some x.
Proof.
  induction 1 as [|y pre Hy _ IH]; intros Hx; simpl.
  - by rewrite Hx.
  - rewrite Hy. by apply IH.
Qed.

Lemma find_is_Some {A} (f : A -> bool) (l : list A) :
  Exists (fun x => f x = true) l -> exists x, find f l = Some x.
Proof.
  induction 1 as [x l Hx | x l _ [y IH]]; simpl.
  - exists x. by rewrite Hx.
  - destruct (f x); eauto.
Qed.

Lemma find_None_Forall {A} (f : A -> bool) (l : list A) :
  Forall (fun x => f x = false) l -> find f l = None.
Proof.
  induction 1 as [|x l Hx _ IH]; simpl; [done|]. by rewrite Hx.
Qed.

Lemma find_Some_elem {A} (f : A -> bool) (l : list A) (x : A) :
  find f l = Some x -> x ∈ l /\ f x = true.
Proof.
  intros H. apply find_some in H as [Hin Hf].
  split; [by apply list_elem_of_In | done].
Qed.

(** Refutes membership in an explicit list whose elements all differ from
    the candidate by their constructors or literals. *)
Ltac not_in_list H :=
  repeat (apply elem_of_cons in H as [H|H]; [congruence|]);
  by apply elem_of_nil in H.

(** The effects of a tick on which the cut [c] is the one found. *)
Lemma handleTimeUpdate_cut (a : AnalysisResult) (t : Q) (c : CutSegment) :
  find (cut_matches t) (cuts a) = Some c ->
  handleTimeUpdate (Some t) (Some a) =
    [ OnTimeUpdate t;
      SetSkipNotification (Some ("Skipping: " +:+ cut_reason c));
      SetVideoCurrentTime (cut_end c);
      SetTimeout (SetSkipNotification None) 1000 ].
Proof. intros H. unfold handleTimeUpdate. by rewrite H. Qed.

(** The effects of a tick on which no cut matches. *)
Lemma handleTimeUpdate_no_cut (a : AnalysisResult) (t : Q) :
  find (cut_matches t) (cuts a) = None ->
  handleTimeUpdate (Some t) (Some a) =
    OnTimeUpdate t ::
    SetCurrentSubtitle (find (subtitle_matches t) (subtitles a)) ::
    match find (zoom_matches t) (zooms a) with
    | Some z =>
      [ SetZoomPoint (Some (nullish (zoom_x z) 50, nullish (zoom_y z) 50));
        SetZoomStyle
          (mkStyle (5 # 2)
             (OriginPercent (nullish (zoom_x z) 50) (nullish (zoom_y z) 50))
             (4 # 5)) ]
    | None =>
      [ SetZoomPoint None; SetZoomStyle (mkStyle 1 OriginCenter (4 # 5)) ]
    end.
Proof. intros H. unfold handleTimeUpdate. by rewrite H. Qed.

(** C1: whenever some cut matches the time of a tick ([start <= t < end]),
    the tick issues the skip (notification, jump, timer) and nothing else:
    none of its effects is a subtitle or zoom output, and the subtitle, zoom
    style and zoom point of the player are left as they were. *)
Theorem cut_tick_has_no_subtitle_or_zoom_output
    (a : AnalysisResult) (t : Q) (st : PlayerState) :
  Exists (fun c => cut_start c <= t /\ t < cut_end c) (cuts a) ->
  let es := handleTimeUpdate (Some t) (Some a) in
  (exists c, c ∈ cuts a /\ cut_start c <= t /\ t < cut_end c /\
     es = [ OnTimeUpdate t;
            SetSkipNotification (Some ("Skipping: " +:+ cut_reason c));
            SetVideoCurrentTime (cut_end c);
            SetTimeout (SetSkipNotification None) 1000 ]) /\
  Forall (fun e => is_subtitle_or_zoom_effect e = false) es /\
  (forall s, SetCurrentSubtitle s ∉ es) /\
  (forall style, SetZoomStyle style ∉ es) /\
  currentSubtitle (run_effects st es) = currentSubtitle st /\
  zoomStyle (run_effects st es) = zoomStyle st /\
  zoomPoint (run_effects st es) = zoomPoint st.
Proof.
  intros Hex es.
  destruct (find_is_Some (cut_matches t) (cuts a)) as [c Hc].
  { eapply Exists_impl; [exact Hex|]. intros c' H. by apply cut_matches_true. }
  assert (Hes : es = [ OnTimeUpdate t;
            SetSkipNotification (Some ("Skipping: " +:+ cut_reason c));
            SetVideoCurrentTime (cut_end c);
            SetTimeout (SetSkipNotification None) 1000 ])
    by (by apply handleTimeUpdate_cut).
  apply find_Some_elem in Hc as [Hin Hm].
  apply cut_matches_true in Hm as [H1 H2].
  split; [by exists c|]. rewrite Hes.
  split; [by repeat constructor|].
  split; [intros s Hs; not_in_list Hs|].
  split; [intros s Hs; not_in_list Hs|].
  done.
Qed.

(** A tick at 11 inside the cut {10, 12}, while a subtitle and a zoom cover
    the same instant. *)
Lemma cut_tick_has_no_subtitle_or_zoom_output_witness :
  let a := mkAnalysis [mkCut 10 12 "silence"] []
             [mkZoom 0 20 center "speaker" (Some 30) (Some 40)]
             [mkSubtitle 9 13 "hello world"] [] in
  let st := mkPlayer 11 0 (Some (mkSubtitle 9 13 "hello world")) None None
              None [] in
  Exists (fun c => cut_start c <= 11 /\ 11 < cut_end c) (cuts a) /\
  Forall (fun e => is_subtitle_or_zoom_effect e = false)
    (handleTimeUpdate (Some 11) (Some a)) /\
  currentSubtitle (tick (Some a) st) = Some (mkSubtitle 9 13 "hello world").
Proof.
  intros a st.
  assert (Hcut : Exists (fun c => cut_start c <= 11 /\ 11 < cut_end c) (cuts a)).
  { apply Exists_cons_hd. split; [apply Qle_bool_iff | apply ltb_true];
      reflexivity. }
  destruct (cut_tick_has_no_subtitle_or_zoom_output a 11 st Hcut)
    as (_ & Hnone & _ & _ & Hsub & _).
  split; [exact Hcut|]. split; [exact Hnone | exact Hsub].
Defined.

(** C2: a cut with [start < end] matches at its start and not at its end;
    when the tick finds the cut, the only jump it commands is to the end of
    that cut, and the video element is left exactly there.  A subtitle
    still matches at its end, and the tick at that instant reports it (when
    no cut matches there and no earlier subtitle of the collection does). *)
Theorem cut_end_exclusive_subtitle_end_inclusive
    (c : CutSegment) (s : Subtitle) :
  cut_start c < cut_end c ->
  sub_start s <= sub_end s ->
  cut_matches (cut_start c) c = true /\
  cut_matches (cut_end c) c = false /\
  (forall a t, find (cut_matches t) (cuts a) = Some c ->
     (forall t', SetVideoCurrentTime t' ∈ handleTimeUpdate (Some t) (Some a)
                 <-> t' = cut_end c) /\
     (forall st, videoTime st = t ->
                 videoTime (tick (Some a) st) = cut_end c)) /\
  subtitle_matches (sub_end s) s = true /\
  (forall a pre post,
     subtitles a = pre ++ s :: post ->
     Forall (fun s' => subtitle_matches (sub_end s) s' = false) pre ->
     find (cut_matches (sub_end s)) (cuts a) = None ->
     (forall r, SetCurrentSubtitle r ∈
                  handleTimeUpdate (Some (sub_end s)) (Some a)
                <-> r = Some s) /\
     (forall st, videoTime st = sub_end s ->
                 currentSubtitle (tick (Some a) st) = Some s)).
Proof.
  intros Hc Hs.
  assert (Hm : subtitle_matches (sub_end s) s = true).
  { apply subtitle_matches_true. split; [done | apply Qle_refl]. }
  split.
  { apply cut_matches_true. split; [apply Qle_refl | done]. }
  split.
  { apply not_true_iff_false. rewrite cut_matches_true.
    intros [_ H]. by apply Qlt_irrefl in H. }
  split.
  { intros a t Hfind. split.
    - intros t'. rewrite (handleTimeUpdate_cut _ _ _ Hfind). split.
      + intros H. repeat (apply elem_of_cons in H as [H|H]; [congruence|]).
        by apply elem_of_nil in H.
      + intros ->. do 2 apply list_elem_of_further. apply list_elem_of_here.
    - intros st Hst. unfold tick. rewrite Hst.
      by rewrite (handleTimeUpdate_cut _ _ _ Hfind). }
  split; [done|].
  intros a pre post Hsubs Hpre Hnocut.
  assert (Hfind : find (subtitle_matches (sub_end s)) (subtitles a) = Some s).
  { rewrite Hsubs. by apply find_first. }
  split.
  - intros r. rewrite (handleTimeUpdate_no_cut _ _ Hnocut), Hfind. split.
    + intros H. apply elem_of_cons in H as [H|H]; [congruence|].
      apply elem_of_cons in H as [H|H]; [congruence|].
      destruct (find _ (zooms a)); not_in_list H.
    + intros ->. apply list_elem_of_further, list_elem_of_here.
  - intros st Hst. unfold tick. rewrite Hst.
    rewrite (handleTimeUpdate_no_cut _ _ Hnocut), Hfind.
    by destruct (find _ (zooms a)).
Qed.

(** The cut {10, 12} and the subtitle {5, 7, "a b c"}: the tick at 11.999
    jumps to 12, the tick at 7 reports the subtitle. *)
Lemma cut_end_exclusive_subtitle_end_inclusive_witness :
  let c := mkCut 10 12 "silence" in
  let s := mkSubtitle 5 7 "a b c" in
  let a := mkAnalysis [c] [] [] [s] [] in
  (cut_start c < cut_end c /\ sub_start s <= sub_end s) /\
  cut_matches 10 c = true /\ cut_matches 12 c = false /\
  videoTime
    (tick (Some a) (mkPlayer (11999 # 1000) 0 None None None None [])) = 12 /\
  subtitle_matches 7 s = true /\
  currentSubtitle (tick (Some a) (mkPlayer 7 0 None None None None []))
    = Some s.
Proof.
  intros c s a.
  assert (Hc : cut_start c < cut_end c) by (by apply ltb_true).
  assert (Hs : sub_start s <= sub_end s) by (by apply leb_true).
  destruct (cut_end_exclusive_subtitle_end_inclusive c s Hc Hs)
    as (H1 & H2 & H3 & H4 & H5).
  split; [by split|].
  split; [exact H1|]. split; [exact H2|].
  split.
  { destruct (H3 a (11999 # 1000)) as [_ H]; [reflexivity|].
    by apply H. }
  split; [exact H4|].
  destruct (H5 a [] []) as [_ H]; [reflexivity | constructor | reflexivity |].
  by apply H.
Defined.

(** The zoom {0, 10, top-left} without coordinates, at time 1: the rule of
    the specification gives the origin (0,0) at 1.5x, the tick emits the
    origin (50,50) at 2.5x. *)
Lemma legacy_zoom_counterexample :
  let z := mkZoom 0 10 top_left "corner" None None in
  let a := mkAnalysis [] [] [z] [] [] in
  find (cut_matches 1) (cuts a) = None /\
  find (zoom_matches 1) (zooms a) = Some z /\
  spec_zoom_style z = mkStyle (3 # 2) (OriginPercent 0 0) (4 # 5) /\
  (SetZoomStyle (spec_zoom_style z) ∉ handleTimeUpdate (Some 1) (Some a)) /\
  (SetZoomStyle (mkStyle (5 # 2) (OriginPercent 50 50) (4 # 5))
     ∈ handleTimeUpdate (Some 1) (Some a)).
Proof.
  intros z a. repeat split.
  - intros H. vm_compute in H. not_in_list H.
  - vm_compute. do 3 apply list_elem_of_further. apply list_elem_of_here.
Qed.

(** C4 (as amended): on a tick without a cut, the style emitted for the
    active zoom has the scale 2.5 and the transition of 0.8s whether or not
    the zoom carries coordinates, and when [x] and [y] are both present the
    origin and the zoom point are exactly that pair. *)
Theorem active_zoom_style (a : AnalysisResult) (t : Q) (z : SmartZoom) :
  find (cut_matches t) (cuts a) = None ->
  find (zoom_matches t) (zooms a) = Some z ->
  exists origin,
    (forall style, SetZoomStyle style ∈ handleTimeUpdate (Some t) (Some a)
                   <-> style = mkStyle (5 # 2) origin (4 # 5)) /\
    (forall x y, zoom_x z = Some x -> zoom_y z = Some y ->
       origin = OriginPercent x y /\
       forall p, SetZoomPoint p ∈ handleTimeUpdate (Some t) (Some a)
                 <-> p = Some (x, y)).
Proof.
  intros Hnocut Hzoom.
  exists (OriginPercent (nullish (zoom_x z) 50) (nullish (zoom_y z) 50)).
  rewrite (handleTimeUpdate_no_cut _ _ Hnocut), Hzoom. split.
  - intros style. split.
    + intros H. repeat (apply elem_of_cons in H as [H|H]; try congruence).
      by apply elem_of_nil in H.
    + intros ->. do 3 apply list_elem_of_further. apply list_elem_of_here.
  - intros x y -> ->. simpl. split; [done|]. intros p. split.
    + intros H. repeat (apply elem_of_cons in H as [H|H]; try congruence).
      by apply elem_of_nil in H.
    + intros ->. do 2 apply list_elem_of_further. apply list_elem_of_here.
Qed.

(** A zoom with the focus point (30, 40), at time 1. *)
Lemma active_zoom_style_witness :
  let z := mkZoom 0 10 center "speaker" (Some 30) (Some 40) in
  let a := mkAnalysis [] [] [z] [] [] in
  (find (cut_matches 1) (cuts a) = None /\
   find (zoom_matches 1) (zooms a) = Some z) /\
  SetZoomStyle (mkStyle (5 # 2) (OriginPercent 30 40) (4 # 5))
    ∈ handleTimeUpdate (Some 1) (Some a).
Proof.
  intros z a.
  assert (H1 : find (cut_matches 1) (cuts a) = None) by reflexivity.
  assert (H2 : find (zoom_matches 1) (zooms a) = Some z) by reflexivity.
  split; [by split|].
  destruct (active_zoom_style a 1 z H1 H2) as (origin & Hstyle & Hxy).
  destruct (Hxy 30 40) as [-> _]; [reflexivity | reflexivity |].
  by apply Hstyle.
Defined.

(** ** Word highlighting *)


(** The progress through the subtitle does not decrease with time. *)
Lemma progress_monotone (start end_ t1 t2 : Q) :
  start < end_ -> t1 <= t2 ->
  Qmin 1 (Qmax 0 (t1 - start) / (end_ - start))
  <= Qmin 1 (Qmax 0 (t2 - start) / (end_ - start)).
Proof.
  intros Hd Ht. apply Q.min_le_compat_l.
  unfold Qdiv. apply Qmult_le_compat_r.
  - apply Q.max_le_compat_l. lra.
  - apply Qinv_le_0_compat. lra.
Qed.

Lemma activeIndex_unfold (text : string) (start end_ t : Q) :
  activeIndex (ActiveSubtitleText text start end_ t)
  = Qfloor (Qmin 1 (Qmax 0 (t - start) / (end_ - start))
            * inject_Z (Z.of_nat (length (split " " text)))).
Proof. reflexivity. Qed.

(** The index does not decrease with time (over the whole time axis, so in
    particular within the span of the subtitle). *)
Lemma activeIndex_monotone (text : string) (start end_ t1 t2 : Q) :
  start < end_ -> t1 <= t2 ->
  (activeIndex (ActiveSubtitleText text start end_ t1)
   <= activeIndex (ActiveSubtitleText text start end_ t2))%Z.
Proof.
  intros Hd Ht. rewrite !activeIndex_unfold. apply Qfloor_resp_le.
  apply Qmult_le_compat_r; [by apply progress_monotone|].
  change 0 with (inject_Z 0). rewrite <- Zle_Qle. lia.
Qed.

(** At the end of the subtitle the progress is 1. *)
Lemma progress_at_end (start end_ : Q) :
  start < end_ ->
  Qmin 1 (Qmax 0 (end_ - start) / (end_ - start)) == 1.
Proof.
  intros Hd. apply Q.min_l.
  rewrite Q.max_r by lra.
  apply Qle_shift_div_l; lra.
Qed.

(** At the end of the subtitle the index is the number of words: one past
    the last word. *)
Lemma activeIndex_at_end (text : string) (start end_ : Q) :
  start < end_ ->
  activeIndex (ActiveSubtitleText text start end_ end_)
  = Z.of_nat (length (split " " text)).
Proof.
  intros Hd. rewrite activeIndex_unfold.
  rewrite (Qfloor_comp _ (inject_Z (Z.of_nat (length (split " " text))))).
  - apply Qfloor_Z.
  - rewrite (progress_at_end _ _ Hd). apply Qmult_1_l.
Qed.


Lemma filter_none {A} (P : A -> Prop) `{!forall x, Decision (P x)}
    (l : list A) :
  Forall (fun x => ~ P x) l -> filter P l = [].
Proof.
  induction 1 as [|x l Hx _ IH]; [done|].
  by rewrite filter_cons_False.
Qed.

(** No span is highlighted when the index is the number of words. *)
Lemma no_word_highlighted_at_end (text : string) (start end_ : Q) :
  start < end_ ->
  highlighted (ActiveSubtitleText text start end_ end_) = [].
Proof.
  intros Hd. unfold highlighted.
  rewrite filter_none; [done|].
  apply Forall_forall. intros [w b] Hin. simpl.
  apply list_elem_of_lookup in Hin as [i Hi].
  pose proof (activeIndex_at_end text start end_ Hd) as Hidx.
  unfold ActiveSubtitleText in *. simpl in *.
  rewrite list_lookup_imap in Hi.
  destruct (split " " text !! i) as [w'|] eqn:Hw; [|done].
  apply lookup_lt_Some in Hw. simpl in Hi. inversion Hi; subst.
  rewrite Hidx. intros H. apply Z.eqb_eq in H. lia.
Qed.

(** C3 (the code at the failing input): for the subtitle {5, 7, "a b c"} at
    [t = 7] the index is 3, the number of words, and not 2, the index of the
    last word: no word is drawn highlighted, while just before the end
    (6.5) the last word is. *)
Theorem active_word_at_end_is_past_last_word :
  let r := ActiveSubtitleText "a b c" 5 7 7 in
  length (split " " "a b c") = 3%nat /\
  activeIndex r = 3%Z /\
  spans r = [("a", false); ("b", false); ("c", false)] /\
  highlighted r = [] /\
  highlighted (ActiveSubtitleText "a b c" 5 7 (13 # 2)) = ["c"].
Proof. by vm_compute. Qed.

(** ** History manager *)

Lemma slice0_nonneg {A} (l : list A) (k : nat) :
  slice0 l (Z.of_nat k) = take k l.
Proof.
  unfold slice0. destruct (Z.ltb_spec (Z.of_nat k) 0); [lia|].
  by rewrite Nat2Z.id.
Qed.

Lemma at_index_nonneg {A} (l : list A) (k : nat) :
  at_index l (Z.of_nat k) = l !! k.
Proof.
  unfold at_index. destruct (Z.ltb_spec (Z.of_nat k) 0); [lia|].
  by rewrite Nat2Z.id.
Qed.

Lemma at_index_Some {A} (l : list A) (k : Z) (x : A) :
  at_index l k = Some x ->
  exists i, k = Z.of_nat i /\ l !! i = Some x /\ (i < length l)%nat.
Proof.
  unfold at_index. destruct (Z.ltb_spec k 0); [done|]. intros Hl.
  exists (Z.to_nat k). split; [lia|]. split; [done|].
  by apply lookup_lt_Some in Hl.
Qed.

(** After [pushToHistory] the cursor is on the last entry, which is the
    recorded EDL, whatever the state was. *)
Lemma pushToHistory_cursor (newAnalysis : AnalysisResult) (st : AppState) :
  let st' := pushToHistory newAnalysis st in
  historyIndex st' = (Z.of_nat (length (history st')) - 1)%Z /\
  at_index (history st') (historyIndex st') = Some newAnalysis /\
  last (history st') = Some newAnalysis /\
  analysis st' = Some newAnalysis /\
  saved st' = Some newAnalysis.
Proof.
  simpl. set (h := slice0 (history st) (historyIndex st + 1)).
  rewrite length_app; simpl.
  replace (Z.of_nat (length h + 1) - 1)%Z with (Z.of_nat (length h)) by lia.
  rewrite at_index_nonneg, last_snoc.
  split; [done|]. split; [|done].
  by rewrite lookup_app_r, Nat.sub_diag.
Qed.

(** [pushToHistory] from a state whose cursor is at entry [i]. *)
Lemma pushToHistory_at (newAnalysis : AnalysisResult) (st : AppState) (i : nat) :
  historyIndex st = Z.of_nat i -> (i < length (history st))%nat ->
  pushToHistory newAnalysis st =
    mkApp (Some newAnalysis) (take (S i) (history st) ++ [newAnalysis])
      (Z.of_nat (S i)) (pickingZoomIndex st) (Some newAnalysis).
Proof.
  intros Hi Hlen. unfold pushToHistory. rewrite Hi.
  replace (Z.of_nat i + 1)%Z with (Z.of_nat (S i)) by lia.
  rewrite slice0_nonneg, length_app, length_take.
  change (length [newAnalysis]) with 1%nat.
  f_equal. lia.
Qed.

(** Redo directly after [pushToHistory] changes nothing. *)
Lemma redo_after_push (newAnalysis : AnalysisResult) (st : AppState) :
  redo (pushToHistory newAnalysis st) = pushToHistory newAnalysis st.
Proof.
  destruct (pushToHistory_cursor newAnalysis st) as [Hidx _].
  unfold redo. rewrite Hidx.
  by rewrite Z.ltb_irrefl.
Qed.

Lemma history_inv_push (newAnalysis : AnalysisResult) (st : AppState) :
  history_inv (pushToHistory newAnalysis st).
Proof.
  destruct (pushToHistory_cursor newAnalysis st) as (_ & Hat & _ & Han & _).
  unfold history_inv. by rewrite Han.
Qed.

Lemma history_inv_undo (st : AppState) : history_inv st -> history_inv (undo st).
Proof.
  unfold history_inv, undo. intros Hinv.
  destruct (Z.gtb_spec (historyIndex st) 0) as [Hpos|]; [|done].
  destruct (analysis st) as [a|]; [|destruct Hinv; lia].
  apply at_index_Some in Hinv as (i & Hi & _ & Hlen).
  destruct i as [|i]; [lia|]. cbn [analysis history historyIndex].
  replace (historyIndex st - 1)%Z with (Z.of_nat i) by lia.
  rewrite at_index_nonneg.
  destruct (lookup_lt_is_Some_2 (history st) i) as [b Hb]; [lia|].
  by rewrite Hb.
Qed.

Lemma history_inv_redo (st : AppState) : history_inv st -> history_inv (redo st).
Proof.
  unfold history_inv, redo. intros Hinv.
  destruct (Z.ltb_spec (historyIndex st) (Z.of_nat (length (history st)) - 1))
    as [Hlt|]; [|done].
  destruct (analysis st) as [a|].
  - apply at_index_Some in Hinv as (i & Hi & _ & Hlen).
    cbn [analysis history historyIndex].
    replace (historyIndex st + 1)%Z with (Z.of_nat (S i)) by lia.
    rewrite at_index_nonneg.
    destruct (lookup_lt_is_Some_2 (history st) (S i)) as [b Hb]; [lia|].
    by rewrite Hb.
  - destruct Hinv as [Hh Hi]. rewrite Hh, Hi in Hlt. simpl in Hlt. lia.
Qed.

(** Every state the application reaches keeps the cursor on the current
    EDL. *)
Lemma reachable_history_inv (st : AppState) : reachable st -> history_inv st.
Proof.
  induction 1 as [stored | st _ _ | result st _ _ | newAnalysis st _ _ _
                 | st _ IH | st _ IH].
  - by split.
  - by split.
  - done.
  - apply history_inv_push.
  - by apply history_inv_undo.
  - by apply history_inv_redo.
Qed.

(** Undo directly after [pushToHistory], from a state whose cursor is at
    entry [i], which holds [prev]. *)
Lemma undo_after_push (newEdl prev : AnalysisResult) (st : AppState) (i : nat) :
  historyIndex st = Z.of_nat i -> history st !! i = Some prev ->
  undo (pushToHistory newEdl st) =
    mkApp (Some prev) (take (S i) (history st) ++ [newEdl]) (Z.of_nat i)
      (pickingZoomIndex st) (Some prev).
Proof.
  intros Hi Hprev. pose proof (lookup_lt_Some _ _ _ Hprev) as Hlen.
  rewrite (pushToHistory_at newEdl st i Hi Hlen).
  unfold undo. cbn [historyIndex history pickingZoomIndex].
  destruct (Z.gtb_spec (Z.of_nat (S i)) 0); [|lia].
  replace (Z.of_nat (S i) - 1)%Z with (Z.of_nat i) by lia.
  rewrite at_index_nonneg, lookup_app_l by (rewrite length_take; lia).
  by rewrite lookup_take_lt, Hprev by lia.
Qed.

(** Redo after that undo gives back the state [pushToHistory] left. *)
Lemma redo_undo_after_push (newEdl prev : AnalysisResult) (st : AppState)
    (i : nat) :
  historyIndex st = Z.of_nat i -> history st !! i = Some prev ->
  redo (undo (pushToHistory newEdl st)) = pushToHistory newEdl st.
Proof.
  intros Hi Hprev. pose proof (lookup_lt_Some _ _ _ Hprev) as Hlen.
  rewrite (undo_after_push newEdl prev st i Hi Hprev).
  rewrite (pushToHistory_at newEdl st i Hi Hlen).
  unfold redo. cbn [historyIndex history pickingZoomIndex].
  rewrite length_app, length_take.
  change (length [newEdl]) with 1%nat.
  destruct (Z.ltb_spec (Z.of_nat i)
              (Z.of_nat ((S i `min` length (history st)) + 1) - 1)); [|lia].
  replace (Z.of_nat i + 1)%Z with (Z.of_nat (S i)) by lia.
  rewrite at_index_nonneg, lookup_app_r by (rewrite length_take; lia).
  rewrite length_take.
  by replace (S i - S i `min` length (history st))%nat with 0%nat by lia.
Qed.

(** C5: in a state whose cursor is on the current EDL [prev], recording
    [newEdl] and undoing makes [prev] the current EDL again, with the cursor
    back where it was; redoing then makes [newEdl] the current EDL. *)
Theorem record_undo_redo (st : AppState) (prev newEdl : AnalysisResult) :
  history_inv st ->
  analysis st = Some prev ->
  let recorded := pushToHistory newEdl st in
  analysis recorded = Some newEdl /\
  analysis (undo recorded) = Some prev /\
  historyIndex (undo recorded) = historyIndex st /\
  saved (undo recorded) = Some prev /\
  analysis (redo (undo recorded)) = Some newEdl /\
  redo (undo recorded) = recorded.
Proof.
  intros Hinv Han recorded. unfold history_inv in Hinv. rewrite Han in Hinv.
  apply at_index_Some in Hinv as (i & Hi & Hprev & Hlen).
  unfold recorded.
  rewrite (redo_undo_after_push newEdl prev st i Hi Hprev).
  rewrite (undo_after_push newEdl prev st i Hi Hprev).
  by repeat split.
Qed.

(** A fresh analysis, then one recorded edit, undone and redone. *)
Lemma record_undo_redo_witness :
  let st := handleAnalyze edl_one_cut (initialState None) in
  (history_inv st /\ analysis st = Some edl_one_cut) /\
  analysis (undo (pushToHistory edl_two_cuts st)) = Some edl_one_cut /\
  analysis (redo (undo (pushToHistory edl_two_cuts st))) = Some edl_two_cuts.
Proof.
  intros st.
  assert (Hinv : history_inv st) by reflexivity.
  assert (Han : analysis st = Some edl_one_cut) by reflexivity.
  destruct (record_undo_redo st edl_one_cut edl_two_cuts Hinv Han)
    as (_ & Hundo & _ & _ & Hredo & _).
  split; [by split|]. split; [exact Hundo | exact Hredo].
Defined.

(** C6: after record(A), undo and record(B), from any state, the history is
    the part of the old one up to the cursor followed by [B], the cursor is
    on that last entry, and redo changes nothing: the current EDL stays [B].
    From a state whose cursor is on its current EDL, [A] was recorded just
    after the cursor and [B] has taken its place. *)
Theorem record_after_undo_truncates (st : AppState) (A B : AnalysisResult) :
  let st1 := pushToHistory A st in
  let st2 := undo st1 in
  let st3 := pushToHistory B st2 in
  history st3 = slice0 (history st2) (historyIndex st2 + 1) ++ [B] /\
  last (history st3) = Some B /\
  historyIndex st3 = (Z.of_nat (length (history st3)) - 1)%Z /\
  analysis st3 = Some B /\
  redo st3 = st3 /\
  analysis (redo st3) = Some B /\
  (history_inv st -> is_Some (analysis st) ->
   exists kept,
     kept = slice0 (history st) (historyIndex st + 1) /\
     history st1 = kept ++ [A] /\
     history st3 = kept ++ [B] /\
     historyIndex st3 = (historyIndex st + 1)%Z).
Proof.
  intros st1 st2 st3.
  destruct (pushToHistory_cursor B st2) as (Hidx & _ & Hlast & Han & _).
  split; [done|]. split; [exact Hlast|]. split; [exact Hidx|].
  split; [exact Han|].
  split; [apply redo_after_push|].
  split; [unfold st3; by rewrite redo_after_push|].
  intros Hinv [prev Hprev]. unfold history_inv in Hinv. rewrite Hprev in Hinv.
  apply at_index_Some in Hinv as (i & Hi & Hlook & Hlen).
  exists (take (S i) (history st)).
  assert (Hst2 : st2 = mkApp (Some prev) (take (S i) (history st) ++ [A])
                         (Z.of_nat i) (pickingZoomIndex st) (Some prev))
    by (by apply undo_after_push).
  rewrite Hi. replace (Z.of_nat i + 1)%Z with (Z.of_nat (S i)) by lia.
  rewrite slice0_nonneg. split; [done|].
  split; [unfold st1; by rewrite (pushToHistory_at A st i Hi Hlen)|].
  unfold st3. rewrite Hst2. unfold pushToHistory.
  cbn [history historyIndex].
  replace (Z.of_nat i + 1)%Z with (Z.of_nat (S i)) by lia.
  rewrite slice0_nonneg, take_app_le by (rewrite length_take; lia).
  rewrite take_idemp. split; [done|].
  rewrite length_app, length_take. change (length [B]) with 1%nat. lia.
Qed.

(** Two edits recorded after an analysis; the second edit is undone and a
    different one recorded in its place. *)
Lemma record_after_undo_truncates_witness :
  let st := pushToHistory edl_one_cut (handleAnalyze edl_empty (initialState None)) in
  (history_inv st /\ is_Some (analysis st)) /\
  history (pushToHistory edl_two_cuts st)
    = [edl_empty; edl_one_cut; edl_two_cuts] /\
  history (pushToHistory edl_empty (undo (pushToHistory edl_two_cuts st)))
    = [edl_empty; edl_one_cut; edl_empty].
Proof.
  intros st.
  assert (Hinv : history_inv st) by reflexivity.
  assert (Han : is_Some (analysis st)) by (by eexists).
  destruct (record_after_undo_truncates st edl_two_cuts edl_empty)
    as (_ & _ & _ & _ & _ & _ & H).
  destruct (H Hinv Han) as (kept & -> & H1 & H3 & _).
  split; [by split|]. split; [exact H1 | exact H3].
Defined.

(** ** Cut to highlight promotion *)

(** C7: for a valid cut index, the handler returns after one call of
    [pushToHistory] with a single new EDL: its cuts are the old ones without
    position [index] (the others keep their order, and the promoted cut is
    gone from the collection when it occurred once), its highlights are the
    old ones followed by one highlight with the start and end of the cut,
    the two collections together hold as many segments as before, and the
    history gains exactly that one entry after the kept prefix. *)
Theorem promote_is_atomic (st : AppState) (a : AnalysisResult) (index : nat)
    (cut : CutSegment) :
  analysis st = Some a ->
  cuts a !! index = Some cut ->
  exists newAnalysis newHighlight,
    handlePromoteCutToHighlight index st
      = Returns (pushToHistory newAnalysis st) /\
    cuts newAnalysis = delete index (cuts a) /\
    (forall j, cuts newAnalysis !! j
               = if decide (j < index)%nat then cuts a !! j
                 else cuts a !! S j) /\
    (NoDup (cuts a) -> cut ∉ cuts newAnalysis) /\
    highlights newAnalysis = highlights a ++ [newHighlight] /\
    hl_start newHighlight = cut_start cut /\
    hl_end newHighlight = cut_end cut /\
    hl_label newHighlight = "Highlighted Segment" /\
    (length (cuts newAnalysis) + length (highlights newAnalysis)
     = length (cuts a) + length (highlights a))%nat /\
    chapters newAnalysis = chapters a /\
    zooms newAnalysis = zooms a /\
    subtitles newAnalysis = subtitles a /\
    history (pushToHistory newAnalysis st)
      = slice0 (history st) (historyIndex st + 1) ++ [newAnalysis] /\
    analysis (pushToHistory newAnalysis st) = Some newAnalysis.
Proof.
  intros Han Hcut.
  exists (mkAnalysis (delete index (cuts a)) (chapters a) (zooms a)
            (subtitles a)
            (highlights a ++
               [mkHighlight (cut_start cut) (cut_end cut) "Highlighted Segment"])),
         (mkHighlight (cut_start cut) (cut_end cut) "Highlighted Segment").
  pose proof (lookup_lt_Some _ _ _ Hcut) as Hlen.
  split.
  { unfold handlePromoteCutToHighlight, promote. by rewrite Han, Hcut. }
  split; [done|].
  split.
  { intros j. cbn [cuts]. case_decide.
    - by apply list_lookup_delete_lt.
    - apply list_lookup_delete_ge. lia. }
  split.
  { intros Hnd Hin. cbn [cuts] in Hin.
    apply list_elem_of_lookup in Hin as [j Hj].
    assert (Hj' : cuts a !! (if decide (j < index)%nat then j else S j)
                  = Some cut).
    { case_decide.
      - by rewrite <- Hj, list_lookup_delete_lt.
      - rewrite <- Hj, list_lookup_delete_ge; [done | lia]. }
    pose proof (NoDup_lookup _ _ _ _ Hnd Hcut Hj') as Heq.
    case_decide; lia. }
  split; [done|]. split; [done|]. split; [done|]. split; [done|].
  split.
  { cbn [cuts highlights]. rewrite length_delete, length_app by by eexists.
    simpl. lia. }
  by repeat split.
Qed.

(** Promoting the second of two cuts. *)
Lemma promote_is_atomic_witness :
  let st := handleAnalyze edl_two_cuts (initialState None) in
  (analysis st = Some edl_two_cuts /\
   cuts edl_two_cuts !! 1%nat = Some (mkCut 8 9 "cough")) /\
  handlePromoteCutToHighlight 1 st
    = Returns
        (pushToHistory
           (mkAnalysis [mkCut 0 2 "silence"] [] []
              [mkSubtitle 2 5 "hello world"]
              [mkHighlight 8 9 "Highlighted Segment"]) st).
Proof.
  intros st.
  assert (Han : analysis st = Some edl_two_cuts) by reflexivity.
  assert (Hcut : cuts edl_two_cuts !! 1%nat = Some (mkCut 8 9 "cough"))
    by reflexivity.
  destruct (promote_is_atomic st edl_two_cuts 1 _ Han Hcut)
    as (a' & h' & Hret & Hcuts & _ & _ & Hhl & Hs & He & Hl & _ & Hch & Hz
        & Hsub & _).
  split; [by split|]. rewrite Hret. do 2 f_equal.
  destruct a' as [c ch z s hl], h' as [hs he hlab]. simpl in *. by subst.
Defined.

(** ** Subtitle text edit *)

Lemma alloc_spec (h : gmap loc object) (o : object) :
  h !! (alloc h o).2 = None /\ (alloc h o).1 = <[(alloc h o).2 := o]> h.
Proof.
  split; [|done]. apply not_elem_of_dom, is_fresh.
Qed.

Section heap_growth.
Context (h h' : gmap loc object) (Hsub : h ⊆ h').

Lemma read_subtitle_mono (l : loc) (s : Subtitle) :
  read_subtitle h l = Some s -> read_subtitle h' l = Some s.
Proof.
  unfold read_subtitle. destruct (h !! l) as [o|] eqn:Hl; [|done].
  by rewrite (lookup_weaken _ _ _ _ Hl Hsub).
Qed.

Lemma read_subtitles_mono (l : loc) (ss : list Subtitle) :
  read_subtitles h l = Some ss -> read_subtitles h' l = Some ss.
Proof.
  unfold read_subtitles. destruct (h !! l) as [o|] eqn:Hl; [|done].
  rewrite (lookup_weaken _ _ _ _ Hl Hsub). destruct o; try done.
  rewrite !mapM_Some. intros Hall.
  eapply Forall2_impl; [exact Hall|]. intros x y.
  apply read_subtitle_mono.
Qed.

(** An EDL object read in a heap reads the same in every larger heap. *)
Lemma read_analysis_mono (l : loc) (a : AnalysisResult) :
  read_analysis h l = Some a -> read_analysis h' l = Some a.
Proof.
  unfold read_analysis. destruct (h !! l) as [o|] eqn:Hl; [|done].
  rewrite (lookup_weaken _ _ _ _ Hl Hsub).
  destruct o as [| | | | | |c ch z s hl]; try done.
  destruct (h !! c) as [[]|] eqn:H1; try done.
  destruct (h !! ch) as [[]|] eqn:H2; try done.
  destruct (h !! z) as [[]|] eqn:H3; try done.
  destruct (read_subtitles h s) as [ss|] eqn:H4; try done.
  destruct (h !! hl) as [[]|] eqn:H5; try done.
  rewrite (lookup_weaken _ _ _ _ H1 Hsub), (lookup_weaken _ _ _ _ H2 Hsub),
    (lookup_weaken _ _ _ _ H3 Hsub), (lookup_weaken _ _ _ _ H5 Hsub).
  by rewrite (read_subtitles_mono _ _ H4).
Qed.
End heap_growth.

(** What [read_analysis] finds on the heap when it succeeds. *)
Lemma read_analysis_Some (h : gmap loc object) (l : loc) (a : AnalysisResult) :
  read_analysis h l = Some a ->
  exists c ch z s hl elements,
    h !! l = Some (OAnalysis c ch z s hl) /\
    h !! c = Some (OCuts (cuts a)) /\
    h !! ch = Some (OChapters (chapters a)) /\
    h !! z = Some (OZooms (zooms a)) /\
    h !! hl = Some (OHighlights (highlights a)) /\
    h !! s = Some (OSubtitles elements) /\
    Forall2 (fun x y => read_subtitle h x = Some y) elements (subtitles a).
Proof.
  unfold read_analysis.
  destruct (h !! l) as [[| | | | | |c ch z s hl]|] eqn:Hl; try done.
  destruct (h !! c) as [[]|] eqn:H1; try done.
  destruct (h !! ch) as [[]|] eqn:H2; try done.
  destruct (h !! z) as [[]|] eqn:H3; try done.
  destruct (read_subtitles h s) as [ss|] eqn:H4; try done.
  destruct (h !! hl) as [[]|] eqn:H5; try done.
  intros [= <-]. unfold read_subtitles in H4.
  destruct (h !! s) as [[|elements| | | | |]|] eqn:H6; try done.
  apply mapM_Some in H4.
  exists c, ch, z, s, hl, elements.
  by repeat split.
Qed.

(** The handler on the heap: it succeeds for a valid index, the new EDL
    object reads as the old EDL with the one subtitle replaced, and every
    object that was on the heap before is still there unchanged. *)
Lemma handleSubtitleUpdate_heap_spec (h : gmap loc object) (edl : loc)
    (a : AnalysisResult) (index : nat) (old : Subtitle) (newText : string) :
  read_analysis h edl = Some a ->
  subtitles a !! index = Some old ->
  exists h' edl',
    handleSubtitleUpdate_heap h edl index newText = Some (h', edl') /\
    h ⊆ h' /\
    h !! edl' = None /\
    read_analysis h' edl'
      = Some (mkAnalysis (cuts a) (chapters a) (zooms a)
                (<[index := mkSubtitle (sub_start old) (sub_end old) newText]>
                   (subtitles a))
                (highlights a)).
Proof.
  intros Hread Hold.
  destruct (read_analysis_Some _ _ _ Hread)
    as (c & ch & z & s & hl & elements & He & Hc & Hch & Hz & Hhl & Hs & Hall).
  destruct (Forall2_lookup_r _ _ _ _ _ Hall Hold) as (lo & Hlo & Hro).
  unfold read_subtitle in Hro.
  destruct (h !! lo) as [[old'| | | | | |]|] eqn:Hhlo; try done.
  injection Hro as ->.
  unfold handleSubtitleUpdate_heap. rewrite He, Hs.
  destruct (alloc_spec h (OSubtitles elements)) as [Hu _].
  set (u := (alloc h (OSubtitles elements)).2) in *.
  set (h1 := <[u := OSubtitles elements]> h).
  change (alloc h (OSubtitles elements)) with (h1, u). cbn beta iota.
  rewrite Hlo.
  assert (Hlo1 : h1 !! lo = Some (OSubtitle old)).
  { unfold h1. rewrite lookup_insert_ne; [done|]. congruence. }
  rewrite Hlo1.
  set (new := mkSubtitle (sub_start old) (sub_end old) newText).
  destruct (alloc_spec h1 (OSubtitle new)) as [Hn _].
  set (n := (alloc h1 (OSubtitle new)).2) in *.
  set (h2 := <[n := OSubtitle new]> h1).
  change (alloc h1 (OSubtitle new)) with (h2, n). cbn beta iota.
  set (h3 := <[u := OSubtitles (<[index := n]> elements)]> h2).
  destruct (alloc_spec h3 (OAnalysis c ch z u hl)) as [He' _].
  set (e := (alloc h3 (OAnalysis c ch z u hl)).2) in *.
  set (h4 := <[e := OAnalysis c ch z u hl]> h3).
  change (alloc h3 (OAnalysis c ch z u hl)) with (h4, e).
  assert (Hnu : n <> u).
  { intros ->. unfold h1 in Hn. by rewrite lookup_insert_eq in Hn. }
  assert (Heu : e <> u).
  { intros Heq. rewrite Heq in He'. unfold h3 in He'.
    by rewrite lookup_insert_eq in He'. }
  assert (Hen : e <> n).
  { intros Heq. rewrite Heq in He'. unfold h3, h2 in He'.
    rewrite lookup_insert_ne in He' by done.
    by rewrite lookup_insert_eq in He'. }
  assert (Hsub : h ⊆ h4).
  { apply map_subseteq_spec. intros i x Hi.
    assert (i <> u) by congruence.
    assert (i <> n).
    { intros ->. unfold h1 in Hn. rewrite lookup_insert_ne in Hn by done.
      congruence. }
    assert (i <> e).
    { intros ->. unfold h3, h2, h1 in He'.
      rewrite !lookup_insert_ne in He' by done. congruence. }
    unfold h4, h3, h2, h1. by rewrite !lookup_insert_ne. }
  exists h4, e. split; [done|]. split; [done|].
  split.
  { destruct (h !! e) as [o|] eqn:Hhe; [|done].
    pose proof (lookup_weaken _ _ _ _ Hhe Hsub) as H4.
    unfold h4 in H4. rewrite lookup_insert_eq in H4.
    unfold h3, h2, h1 in He'. rewrite !lookup_insert_ne in He' by done.
    congruence. }
  unfold read_analysis.
  replace (h4 !! e) with (Some (OAnalysis c ch z u hl))
    by (unfold h4; by rewrite lookup_insert_eq).
  rewrite (lookup_weaken _ _ _ _ Hc Hsub), (lookup_weaken _ _ _ _ Hch Hsub),
    (lookup_weaken _ _ _ _ Hz Hsub), (lookup_weaken _ _ _ _ Hhl Hsub).
  assert (Hrs : read_subtitles h4 u = Some (<[index := new]> (subtitles a))).
  { unfold read_subtitles.
    replace (h4 !! u) with (Some (OSubtitles (<[index := n]> elements))).
    2:{ unfold h4, h3. rewrite lookup_insert_ne by done.
        by rewrite lookup_insert_eq. }
    apply mapM_Some. apply Forall2_insert.
    - eapply Forall2_impl; [exact Hall|]. intros x y.
      by apply read_subtitle_mono.
    - unfold read_subtitle, h4, h3, h2.
      rewrite !lookup_insert_ne by done. by rewrite lookup_insert_eq. }
  by rewrite Hrs.
Qed.

(** C10: for a valid subtitle index the handler records a new EDL in which
    the subtitle at that index has the new text and its old start and end,
    every other subtitle and the other four collections are as before; on
    the heap the handler only allocates: the new EDL object reads as that
    new EDL, every object that existed before is unchanged, and the EDL
    object it was given still reads as the old EDL. *)
Theorem subtitle_edit_changes_only_the_text
    (st : AppState) (a : AnalysisResult) (index : nat) (old : Subtitle)
    (newText : string) (h : gmap loc object) (edl : loc) :
  analysis st = Some a ->
  subtitles a !! index = Some old ->
  read_analysis h edl = Some a ->
  exists newAnalysis h' edl',
    handleSubtitleUpdate index newText st
      = Returns (pushToHistory newAnalysis st) /\
    analysis (pushToHistory newAnalysis st) = Some newAnalysis /\
    subtitles newAnalysis !! index
      = Some (mkSubtitle (sub_start old) (sub_end old) newText) /\
    (forall j, j <> index ->
               subtitles newAnalysis !! j = subtitles a !! j) /\
    length (subtitles newAnalysis) = length (subtitles a) /\
    cuts newAnalysis = cuts a /\
    chapters newAnalysis = chapters a /\
    zooms newAnalysis = zooms a /\
    highlights newAnalysis = highlights a /\
    handleSubtitleUpdate_heap h edl index newText = Some (h', edl') /\
    read_analysis h' edl' = Some newAnalysis /\
    (forall l o, h !! l = Some o -> h' !! l = Some o) /\
    edl' <> edl /\
    read_analysis h' edl = Some a.
Proof.
  intros Han Hold Hread.
  destruct (handleSubtitleUpdate_heap_spec h edl a index old newText Hread Hold)
    as (h' & edl' & Hheap & Hsub & Hfresh & Hnew).
  pose proof (lookup_lt_Some _ _ _ Hold) as Hlen.
  eexists _, h', edl'.
  split.
  { unfold handleSubtitleUpdate. by rewrite Han, Hold. }
  cbn [subtitles cuts chapters zooms highlights].
  split; [done|].
  split; [by apply list_lookup_insert_eq|].
  split; [intros j Hj; by apply list_lookup_insert_ne|].
  split; [by rewrite length_insert|].
  do 4 (split; [done|]).
  split; [exact Hheap|]. split; [exact Hnew|].
  split; [intros l o Hl; by eapply lookup_weaken|].
  split.
  { intros ->. unfold read_analysis in Hread. by rewrite Hfresh in Hread. }
  by eapply read_analysis_mono.
Qed.

(** ** Waveform decimator *)

Lemma of_nat_pos (n : nat) : (0 < n)%nat -> 0 < of_nat n.
Proof.
  intros H. unfold of_nat. change 0 with (inject_Z 0).
  rewrite <- Zlt_Qlt. lia.
Qed.

Lemma of_nat_le (n m : nat) : of_nat n <= of_nat m <-> (n <= m)%nat.
Proof. unfold of_nat. rewrite <- Zle_Qle. lia. Qed.

Lemma of_nat_mul (n m : nat) : of_nat (n * m) == of_nat n * of_nat m.
Proof. unfold of_nat. by rewrite Nat2Z.inj_mul, inject_Z_mult. Qed.

(** [step_of] is the ceiling of the quotient: the least number of samples
    per column with which [width] columns cover the buffer. *)
Lemma step_of_ceiling (len width : nat) :
  (0 < width)%nat ->
  (len <= step_of len width * width)%nat /\
  (forall k, (len <= k * width)%nat -> (step_of len width <= k)%nat).
Proof.
  intros Hw. pose proof (of_nat_pos _ Hw) as HwQ. unfold step_of.
  set (q := of_nat len / of_nat width).
  assert (Hq : q * of_nat width == of_nat len).
  { unfold q. field. lra. }
  assert (Hq0 : 0 <= q).
  { unfold q. apply Qle_shift_div_l; [done|]. rewrite Qmult_0_l.
    change 0 with (of_nat 0). apply of_nat_le. lia. }
  assert (Hc0 : (0 <= Qceiling q)%Z).
  { change 0%Z with (Qceiling (inject_Z 0)). by apply Qceiling_resp_le. }
  split.
  - apply of_nat_le. rewrite of_nat_mul. rewrite <- Hq.
    apply Qmult_le_compat_r; [|lra].
    unfold of_nat. rewrite Z2Nat.id by done. apply Qle_ceiling.
  - intros k Hk. apply of_nat_le in Hk. rewrite of_nat_mul, <- Hq in Hk.
    assert (Hqk : q <= of_nat k).
    { apply Qmult_le_r with (z := of_nat width); done. }
    apply Qceiling_resp_le in Hqk. unfold of_nat in Hqk.
    rewrite Qceiling_Z in Hqk. lia.
Qed.

(** The scan of the inner loop: what the running pair is after the rounds
    [a, a + n). *)
Lemma scan_rounds (data : list Q) (base : nat) (n : nat) :
  forall (a : nat) (acc : Q * Q),
  let r := foldl (scan data base) acc (seq a n) in
  (r.1 <= acc.1 /\ acc.2 <= r.2) /\
  (forall j d, (a <= j < a + n)%nat -> data !! (base + j)%nat = Some d ->
               r.1 <= d /\ d <= r.2) /\
  (r.1 = acc.1 \/
   exists j, (a <= j < a + n)%nat /\ data !! (base + j)%nat = Some r.1) /\
  (r.2 = acc.2 \/
   exists j, (a <= j < a + n)%nat /\ data !! (base + j)%nat = Some r.2).
Proof.
  induction n as [|n IH]; intros a acc; simpl.
  { split; [split; apply Qle_refl|]. split; [intros; lia|]. by split; left. }
  specialize (IH (S a) (scan data base acc a)).
  simpl in IH. destruct IH as ((Hlo & Hhi) & Hall & Hmin & Hmax).
  set (r := foldl (scan data base) (scan data base acc a) (seq (S a) n)) in *.
  assert (Hstep : ((scan data base acc a).1 <= acc.1 /\
                   acc.2 <= (scan data base acc a).2) /\
                  (forall d, data !! (base + a)%nat = Some d ->
                     (scan data base acc a).1 <= d /\
                     d <= (scan data base acc a).2) /\
                  ((scan data base acc a).1 = acc.1 \/
                   data !! (base + a)%nat = Some (scan data base acc a).1) /\
                  ((scan data base acc a).2 = acc.2 \/
                   data !! (base + a)%nat = Some (scan data base acc a).2)).
  { unfold scan. destruct (data !! (base + a)%nat) as [d|]; simpl.
    - destruct (ltb d acc.1) eqn:Hlt, (gtb d acc.2) eqn:Hgt;
        try apply ltb_true in Hlt; try apply gtb_true in Hgt;
        try apply ltb_false in Hlt; try apply gtb_false in Hgt;
        (split; [split; lra|]); (split; [intros d' [= <-]; lra|]);
        (split; [by (left + right)|by (left + right)]).
    - split; [split; apply Qle_refl|]. split; [done|]. by split; left. }
  destruct Hstep as ((Hlo' & Hhi') & Hhere & Hmin' & Hmax').
  split; [split; lra|].
  split.
  { intros j d Hj Hd. destruct (decide (j = a)) as [->|Hne].
    - destruct (Hhere d Hd). split; lra.
    - apply (Hall j); [lia | done]. }
  split.
  - destruct Hmin as [Heq | (j & Hj & Hd)].
    + destruct Hmin' as [Heq' | Hd].
      * left. congruence.
      * right. exists a. split; [lia|]. by rewrite Heq.
    + right. exists j. split; [lia | done].
  - destruct Hmax as [Heq | (j & Hj & Hd)].
    + destruct Hmax' as [Heq' | Hd].
      * left. congruence.
      * right. exists a. split; [lia|]. by rewrite Heq.
    + right. exists j. split; [lia | done].
Qed.

(** The pair of a column bounds every sample of its chunk, and each of its
    components is a sample of the chunk or the value the scan starts from. *)
Lemma peak_bounds (data : list Q) (step i : nat) :
  (forall j d, (i * step <= j < i * step + step)%nat -> data !! j = Some d ->
               (peak data step i).1 <= d /\ d <= (peak data step i).2) /\
  ((peak data step i).1 = 1 \/
   exists j, (i * step <= j < i * step + step)%nat /\
             data !! j = Some (peak data step i).1) /\
  ((peak data step i).2 = - (1) \/
   exists j, (i * step <= j < i * step + step)%nat /\
             data !! j = Some (peak data step i).2).
Proof.
  unfold peak.
  destruct (scan_rounds data (i * step) step 0 (1, - (1)))
    as (_ & Hall & Hmin & Hmax).
  split.
  { intros j d Hj Hd. apply (Hall (j - i * step)%nat); [lia|].
    by replace (i * step + (j - i * step))%nat with j by lia. }
  split.
  - destruct Hmin as [?|(j & Hj & Hd)]; [by left|].
    right. exists (i * step + j)%nat. split; [lia | done].
  - destruct Hmax as [?|(j & Hj & Hd)]; [by left|].
    right. exists (i * step + j)%nat. split; [lia | done].
Qed.

Lemma peaks_lookup (data : list Q) (width i : nat) :
  (i < width)%nat ->
  peaks data width !! i = Some (peak data (step_of (length data) width) i).
Proof.
  intros Hi. unfold peaks.
  by rewrite list_lookup_fmap, lookup_seq_lt.
Qed.

Lemma draw_idempotent (data : list Q) (a : option AnalysisResult)
    (duration : Q) (canvas : Canvas) :
  draw data a duration (draw data a duration canvas)
  = draw data a duration canvas.
Proof. reflexivity. Qed.

(** C8: on a canvas of width [W > 0], the step is the ceiling of [N / W];
    column [i] gets a pair that bounds every sample of [i*step, i*step+step)
    from below and above and whose components are samples of that chunk
    (or the values the scan starts from, when no sample of the chunk passes
    the comparison); with samples in [-1, 1] and a chunk that starts inside
    the buffer, both are attained in the chunk.  The line drawn for the
    column is at [x = i], one unit wide and at least one unit tall.  What is
    drawn depends only on the buffer, the EDL, the duration and the size of
    the canvas, not on what was painted before: drawing again changes
    nothing. *)
Theorem decimator_columns (data : list Q) (a : option AnalysisResult)
    (duration : Q) (canvas : Canvas) :
  (0 < canvas_width canvas)%nat ->
  let W := canvas_width canvas in
  let step := step_of (length data) W in
  let amp := of_nat (canvas_height canvas) / 2 in
  let drawn := draw data a duration canvas in
  ((length data <= step * W)%nat /\
   forall k, (length data <= k * W)%nat -> (step <= k)%nat) /\
  length (peaks data W) = W /\
  (forall i, (i < W)%nat ->
     exists mn mx r,
       peaks data W !! i = Some (mn, mx) /\
       (forall j d, (i * step <= j < i * step + step)%nat ->
                    data !! j = Some d -> mn <= d /\ d <= mx) /\
       (mn = 1 \/ exists j, (i * step <= j < i * step + step)%nat /\
                            data !! j = Some mn) /\
       (mx = - (1) \/ exists j, (i * step <= j < i * step + step)%nat /\
                                data !! j = Some mx) /\
       (Forall (fun d => - (1) <= d /\ d <= 1) data ->
        (i * step < length data)%nat ->
        (exists j d, (i * step <= j < i * step + step)%nat /\
                     data !! j = Some d /\ d == mn) /\
        (exists j d, (i * step <= j < i * step + step)%nat /\
                     data !! j = Some d /\ d == mx)) /\
       painted drawn !! i = Some r /\
       rect_x r = of_nat i /\ rect_y r = (1 + mn) * amp /\ rect_w r = 1 /\
       rect_h r = Qmax 1 ((1 + mx) * amp - (1 + mn) * amp) /\
       1 <= rect_h r) /\
  (forall canvas',
     canvas_width canvas' = W ->
     canvas_height canvas' = canvas_height canvas ->
     draw data a duration canvas' = drawn) /\
  draw data a duration drawn = drawn.
Proof.
  intros HW W step amp drawn.
  split; [by apply step_of_ceiling|].
  assert (Hlen : length (peaks data W) = W).
  { unfold peaks. by rewrite length_fmap, length_seq. }
  split; [done|].
  split; [|split].
  - intros i Hi.
    destruct (peak_bounds data step i) as (Hall & Hmin & Hmax).
    destruct (peak data step i) as [mn mx] eqn:Hp. simpl in *.
    exists mn, mx, (column amp i (mn, mx)).
    split; [by rewrite peaks_lookup, <- Hp|].
    split; [done|]. split; [done|]. split; [done|].
    split.
    { intros Hrange Hin.
      assert (Hstep : (0 < step)%nat).
      { destruct (step_of_ceiling (length data) W HW) as [Hcover _].
        fold W step in Hcover. nia. }
      destruct (lookup_lt_is_Some_2 data (i * step)) as [d0 Hd0]; [done|].
      assert (Hj0 : (i * step <= i * step < i * step + step)%nat) by lia.
      destruct (Hall _ _ Hj0 Hd0) as [Hlo Hhi].
      pose proof (proj1 (Forall_forall _ _) Hrange d0
                    (list_elem_of_lookup_2 _ _ _ Hd0)) as [Hd1 Hd2].
      split.
      - destruct Hmin as [-> | (j & Hj & Hd)].
        + exists (i * step)%nat, d0. split; [done|]. split; [done|].
          apply Qle_antisym; done.
        + exists j, mn. split; [done|]. split; [done | apply Qeq_refl].
      - destruct Hmax as [-> | (j & Hj & Hd)].
        + exists (i * step)%nat, d0. split; [done|]. split; [done|].
          apply Qle_antisym; done.
        + exists j, mx. split; [done|]. split; [done | apply Qeq_refl]. }
    split.
    { unfold drawn, draw. fold W amp. simpl.
      rewrite lookup_app_l by (rewrite length_imap; lia).
      rewrite list_lookup_imap, peaks_lookup by done. fold step.
      by rewrite Hp. }
    repeat split. simpl. apply Q.le_max_l.
  - intros canvas' Hw Hh. unfold drawn, draw. by rewrite Hw, Hh.
  - apply draw_idempotent.
Qed.

(** Ten samples on a canvas four pixels wide: the step is 3 and the third
    column, silent, is still drawn one unit tall. *)
Lemma decimator_columns_witness :
  let data := [0; 1 # 2; - (1 # 2); 1 # 4; 0; 0; 0; 0; 0; - (1)] in
  let canvas := mkCanvas 4 10 [] in
  (0 < canvas_width canvas)%nat /\
  step_of (length data) 4 = 3%nat /\
  peaks data 4 = [(- (1 # 2), 1 # 2); (0, 1 # 4); (0, 0); (- (1), - (1))] /\
  exists r, painted (draw data None 1 canvas) !! 2%nat = Some r /\
            1 <= rect_h r.
Proof.
  intros data canvas.
  assert (HW : (0 < canvas_width canvas)%nat) by (simpl; lia).
  destruct (decimator_columns data None 1 canvas HW) as (_ & _ & Hcol & _).
  destruct (Hcol 2%nat) as (mn & mx & r & _ & _ & _ & _ & _ & Hr & _ & _ & _ & _ & Hh);
    [simpl; lia|].
  split; [exact HW|]. split; [reflexivity|]. split; [reflexivity|].
  exists r. split; [exact Hr | exact Hh].
Defined.

(** The one recorded subtitle of [edl_one_cut] gets a new text. *)
Lemma subtitle_edit_changes_only_the_text_witness :
  let st := handleAnalyze edl_one_cut (initialState None) in
  (analysis st = Some edl_one_cut /\
   subtitles edl_one_cut !! 0%nat = Some (mkSubtitle 2 5 "hello world") /\
   read_analysis heap_one_cut 7%positive = Some edl_one_cut) /\
  exists newAnalysis h' edl',
    handleSubtitleUpdate 0 "hello there" st
      = Returns (pushToHistory newAnalysis st) /\
    subtitles newAnalysis = [mkSubtitle 2 5 "hello there"] /\
    cuts newAnalysis = [mkCut 0 2 "silence"] /\
    handleSubtitleUpdate_heap heap_one_cut 7%positive 0 "hello there"
      = Some (h', edl') /\
    read_analysis h' edl' = Some newAnalysis /\
    read_analysis h' 7%positive = Some edl_one_cut.
Proof.
  intros st.
  assert (Han : analysis st = Some edl_one_cut) by reflexivity.
  assert (Hold : subtitles edl_one_cut !! 0%nat
                 = Some (mkSubtitle 2 5 "hello world")) by reflexivity.
  assert (Hread : read_analysis heap_one_cut 7%positive = Some edl_one_cut)
    by (by vm_compute).
  split; [by repeat split|].
  destruct (subtitle_edit_changes_only_the_text st edl_one_cut 0 _
              "hello there" heap_one_cut 7%positive Han Hold Hread)
    as (a' & h' & edl' & Hret & _ & Hi & _ & Hlen & Hcuts & _ & _ & _ & Hheap
        & Hnew & _ & _ & Hsame).
  exists a', h', edl'. split; [exact Hret|].
  split.
  { destruct (subtitles a') as [|s [|s' l]]; simpl in *; try done.
    by injection Hi as ->. }
  by repeat split.
Defined.

(** ** Loading the persisted state *)

(** The stored object {cuts: [], subtitles: []}: after the load the
    highlights are there, the chapters and the zooms are not. *)
Lemma load_leaves_collections_missing :
  exists edl,
    loaded_analysis (loadSaved (Some saved_without_collections)) = Some edl /\
    collection_present "highlights" edl /\
    ~ collection_present "chapters" edl /\
    ~ collection_present "zooms" edl /\
    ~ Forall (fun name => collection_present name edl) collections.
Proof.
  eexists. split; [reflexivity|].
  assert (Hch : ~ collection_present "chapters"
                    (ensure_highlights saved_without_collections)).
  { intros [items H]. vm_compute in H. discriminate. }
  split; [exists []; by vm_compute|].
  split; [exact Hch|].
  split; [intros [items H]; vm_compute in H; discriminate|].
  intros H. apply Hch.
  apply (proj1 (Forall_forall _ _) H). unfold collections.
  apply list_elem_of_further, list_elem_of_here.
Qed.

(** C9 (as amended): the load accepts the parsed object after one
    defaulting step, on [highlights] alone: a missing or falsy [highlights]
    becomes the empty array, so [highlights] is never missing afterwards
    and is an array whenever the stored object had none or had an array;
    every other property, the four other collections included, is taken as
    stored.  The accepted object is the current EDL and the single history
    entry. *)
Theorem load_defaults_highlights_only (parsed : gmap string json) :
  exists edl,
    loadSaved (Some parsed) = mkLoaded (Some edl) [edl] 0 /\
    truthy (edl !! "highlights") = true /\
    (truthy (parsed !! "highlights") = false ->
     edl !! "highlights" = Some (JArray [])) /\
    (truthy (parsed !! "highlights") = true -> edl = parsed) /\
    (parsed !! "highlights" = None \/ collection_present "highlights" parsed ->
     collection_present "highlights" edl) /\
    (forall name, name <> "highlights" -> edl !! name = parsed !! name) /\
    (forall name, name <> "highlights" ->
       (collection_present name edl <-> collection_present name parsed)).
Proof.
  exists (ensure_highlights parsed). split; [done|].
  unfold ensure_highlights.
  destruct (truthy (parsed !! "highlights")) eqn:Ht; simpl.
  - split; [done|]. split; [done|]. split; [done|].
    split; [|done].
    intros [Hnone | Hpresent]; [|done]. by rewrite Hnone in Ht.
  - split; [by rewrite lookup_insert_eq|].
    split; [by rewrite lookup_insert_eq|].
    split; [done|].
    split; [intros _; exists []; by rewrite lookup_insert_eq|].
    split.
    + intros name Hne. by rewrite lookup_insert_ne.
    + intros name Hne. unfold collection_present.
      by rewrite lookup_insert_ne.
Qed.

(** The stored object {cuts: [], subtitles: []} again: its highlights are
    defaulted, its cuts are taken as stored. *)
Lemma load_defaults_highlights_only_witness :
  truthy (saved_without_collections !! "highlights") = false /\
  exists edl,
    loaded_analysis (loadSaved (Some saved_without_collections)) = Some edl /\
    edl !! "highlights" = Some (JArray []) /\
    edl !! "cuts" = Some (JArray []).
Proof.
  assert (Ht : truthy (saved_without_collections !! "highlights") = false)
    by (by vm_compute).
  split; [exact Ht|].
  destruct (load_defaults_highlights_only saved_without_collections)
    as (edl & Hload & _ & Hdef & _ & _ & Hother & _).
  exists edl. split; [by rewrite Hload|].
  split; [by apply Hdef|].
  rewrite Hother by done. by vm_compute.
Defined.

(** * Further properties of the editing core *)

(** ** Sessions *)

Lemma session_inv_push (newAnalysis : AnalysisResult) (st : AppState) :
  session_inv (pushToHistory newAnalysis st).
Proof.
  destruct (pushToHistory_cursor newAnalysis st) as (Hidx & _ & _ & Han & Hsv).
  split; [apply history_inv_push|]. split.
  - rewrite Hidx. unfold pushToHistory. cbn [history].
    rewrite length_app. change (length [newAnalysis]) with 1%nat. lia.
  - intros a Ha. congruence.
Qed.














(** X3: undo and redo are inverse to each other wherever they move the
    cursor: in a state of a session, redo after an undo that moved gives the
    state back, and so does undo after a redo that moved; at the first
    entry undo does nothing and at the last redo does nothing. *)
Theorem undo_redo_inverse (st : AppState) :
  session_inv st ->
  ((historyIndex st > 0)%Z -> undo st <> st /\ redo (undo st) = st) /\
  ((historyIndex st < Z.of_nat (length (history st)) - 1)%Z ->
   redo st <> st /\ undo (redo st) = st) /\
  ((historyIndex st <= 0)%Z -> undo st = st) /\
  ((historyIndex st >= Z.of_nat (length (history st)) - 1)%Z -> redo st = st).
Proof.
  intros (Hinv & Hb & Hs).
  assert (Hcur : (0 <= historyIndex st)%Z ->
                 exists a, analysis st = Some a /\ saved st = Some a /\
                           at_index (history st) (historyIndex st) = Some a).
  { intros H0. unfold history_inv in Hinv.
    destruct (analysis st) as [a|] eqn:Ha; [|destruct Hinv; lia].
    exists a. split; [done|]. split; [by apply Hs | done]. }
  split; [|split; [|split]].
  - intros Hpos. destruct Hcur as (a & Ha & Hsv & Hat); [lia|].
    unfold undo. destruct (Z.gtb_spec (historyIndex st) 0); [|lia].
    split.
    { intros Heq. apply (f_equal historyIndex) in Heq. simpl in Heq. lia. }
    unfold redo. cbn [historyIndex history pickingZoomIndex].
    destruct (Z.ltb_spec (historyIndex st - 1)
                (Z.of_nat (length (history st)) - 1)); [|lia].
    replace (historyIndex st - 1 + 1)%Z with (historyIndex st) by lia.
    rewrite Hat. destruct st; simpl in *. by subst.
  - intros Hlt.
    assert (H0 : (0 <= historyIndex st)%Z).
    { unfold history_inv in Hinv.
      destruct (analysis st) as [a|] eqn:Ha.
      - apply at_index_Some in Hinv as (i & -> & _). lia.
      - destruct Hinv as [Hh Hi]. rewrite Hh in Hlt. simpl in Hlt. lia. }
    destruct (Hcur H0) as (a & Ha & Hsv & Hat).
    unfold redo.
    destruct (Z.ltb_spec (historyIndex st) (Z.of_nat (length (history st)) - 1));
      [|lia].
    split.
    { intros Heq. apply (f_equal historyIndex) in Heq. simpl in Heq. lia. }
    unfold undo. cbn [historyIndex history pickingZoomIndex].
    destruct (Z.gtb_spec (historyIndex st + 1) 0); [|lia].
    replace (historyIndex st + 1 - 1)%Z with (historyIndex st) by lia.
    rewrite Hat. destruct st; simpl in *. by subst.
  - intros Hle. unfold undo.
    by destruct (Z.gtb_spec (historyIndex st) 0); [lia|].
  - intros Hge. unfold redo.
    by destruct (Z.ltb_spec (historyIndex st)
                   (Z.of_nat (length (history st)) - 1)); [lia|].
Qed.

(** Two entries with the cursor on the second. *)
Lemma undo_redo_inverse_witness :
  let st := pushToHistory edl_two_cuts
              (handleAnalyze edl_one_cut (mountEffect None)) in
  (session_inv st /\ (historyIndex st > 0)%Z) /\
  analysis (undo st) = Some edl_one_cut /\ redo (undo st) = st.
Proof.
  intros st.
  assert (Hinv : session_inv st) by apply session_inv_push.
  assert (Hpos : (historyIndex st > 0)%Z) by (simpl; lia).
  destruct (undo_redo_inverse st Hinv) as (H & _).
  destruct (H Hpos) as [_ Hredo].
  split; [by split|]. split; [reflexivity | exact Hredo].
Defined.





(** ** Picking a focus point *)

(** The clamp of the click handler: always within [0, 100], 0 at or before
    the near edge, 100 at or past the far edge, the exact percentage in
    between. *)
Lemma clamp_percent (client edge size : Q) :
  0 < size ->
  let c := Qmax 0 (Qmin 100 (((client - edge) / size) * 100)) in
  (0 <= c /\ c <= 100) /\
  (client <= edge -> c == 0) /\
  (edge + size <= client -> c == 100) /\
  (edge <= client -> client <= edge + size ->
   c == ((client - edge) / size) * 100).
Proof.
  intros Hsize c. unfold c. clear c.
  set (v := ((client - edge) / size) * 100).
  assert (Hv0 : client <= edge -> v <= 0).
  { intros H. unfold v.
    assert ((client - edge) / size <= 0); [|lra].
    apply Qle_shift_div_r; [done | lra]. }
  assert (Hv1 : edge + size <= client -> 100 <= v).
  { intros H. unfold v.
    assert (1 <= (client - edge) / size); [|lra].
    apply Qle_shift_div_l; [done | lra]. }
  assert (Hv2 : edge <= client -> 0 <= v).
  { intros H. unfold v.
    assert (0 <= (client - edge) / size); [|lra].
    apply Qle_shift_div_l; [done | lra]. }
  assert (Hv3 : client <= edge + size -> v <= 100).
  { intros H. unfold v.
    assert ((client - edge) / size <= 1); [|lra].
    apply Qle_shift_div_r; [done | lra]. }
  split; [split|split; [|split]].
  - apply Q.le_max_l.
  - apply Q.max_lub; [lra | apply Q.le_min_l].
  - intros H. apply Q.max_l.
    eapply Qle_trans; [apply Q.le_min_r | by apply Hv0].
  - intros H. rewrite Q.min_l by (by apply Hv1). apply Q.max_r. lra.
  - intros H1 H2. rewrite Q.min_r by (by apply Hv3).
    apply Q.max_r. by apply Hv2.
Qed.

(** X6: a click on the video surface while the zoom at a valid index is
    being picked.  The focus point stored in that zoom is the click position
    as a percentage of the surface, clamped to [0, 100] on both axes (0 at
    or before the left/top edge, 100 at or past the right/bottom edge); the
    zoom keeps its start, end, target and description, every other zoom and
    collection is unchanged, the edit is recorded as one history entry and
    picking ends.  While no zoom is being picked the same click leaves the
    state of the application alone. *)
Theorem picking_click_sets_the_focus_point (rect : DOMRect) (clientX clientY : Q)
    (st : AppState) (a : AnalysisResult) (index : nat) (z : SmartZoom) :
  0 < dom_width rect ->
  0 < dom_height rect ->
  analysis st = Some a ->
  zooms a !! index = Some z ->
  (pickingZoomIndex st = None ->
   surface_click rect clientX clientY st = Returns st) /\
  (pickingZoomIndex st = Some index ->
   exists x y newAnalysis,
     surface_click rect clientX clientY st
       = Returns (setPickingZoomIndex None (pushToHistory newAnalysis st)) /\
     (0 <= x /\ x <= 100) /\ (0 <= y /\ y <= 100) /\
     (clientX <= dom_left rect -> x == 0) /\
     (dom_left rect + dom_width rect <= clientX -> x == 100) /\
     (dom_left rect <= clientX -> clientX <= dom_left rect + dom_width rect ->
      x == ((clientX - dom_left rect) / dom_width rect) * 100) /\
     (clientY <= dom_top rect -> y == 0) /\
     (dom_top rect + dom_height rect <= clientY -> y == 100) /\
     (dom_top rect <= clientY -> clientY <= dom_top rect + dom_height rect ->
      y == ((clientY - dom_top rect) / dom_height rect) * 100) /\
     zooms newAnalysis !! index
       = Some (mkZoom (zoom_start z) (zoom_end z) (zoom_target z)
                 (zoom_description z) (Some x) (Some y)) /\
     (forall j, j <> index -> zooms newAnalysis !! j = zooms a !! j) /\
     length (zooms newAnalysis) = length (zooms a) /\
     cuts newAnalysis = cuts a /\ chapters newAnalysis = chapters a /\
     subtitles newAnalysis = subtitles a /\
     highlights newAnalysis = highlights a).
Proof.
  intros Hw Hh Ha Hz. split.
  - intros Hp. unfold surface_click. by rewrite Hp.
  - intros Hp.
    destruct (clamp_percent clientX (dom_left rect) (dom_width rect) Hw)
      as (Hx & Hx0 & Hx1 & Hx2).
    destruct (clamp_percent clientY (dom_top rect) (dom_height rect) Hh)
      as (Hy & Hy0 & Hy1 & Hy2).
    eexists _, _, _. split.
    { unfold surface_click. rewrite Hp. simpl.
      unfold App_handleVideoClick. rewrite Hp, Ha.
      unfold handleZoomUpdate, store_merged. by rewrite Ha, Hz. }
    pose proof (lookup_lt_Some _ _ _ Hz) as Hlen.
    split; [exact Hx|]. split; [exact Hy|].
    split; [exact Hx0|]. split; [exact Hx1|]. split; [exact Hx2|].
    split; [exact Hy0|]. split; [exact Hy1|]. split; [exact Hy2|].
    cbn [zooms cuts chapters subtitles highlights].
    split; [by rewrite list_lookup_insert_eq|].
    split; [intros j Hj; by rewrite list_lookup_insert_ne|].
    split; [by rewrite length_insert|]. done.
Qed.

(** A click left of and below a 400 by 200 surface. *)
Lemma picking_click_sets_the_focus_point_witness :
  let rect := mkDOMRect 100 50 400 200 in
  let z := mkZoom 1 4 top_left "speaker" None None in
  let a := mkAnalysis [] [] [z] [] [] in
  let st := setPickingZoomIndex (Some 0%nat) (handleAnalyze a (mountEffect None)) in
  (0 < dom_width rect /\ 0 < dom_height rect /\ analysis st = Some a /\
   zooms a !! 0%nat = Some z /\ pickingZoomIndex st = Some 0%nat) /\
  exists x y newAnalysis,
    surface_click rect 40 900 st
      = Returns (setPickingZoomIndex None (pushToHistory newAnalysis st)) /\
    x == 0 /\ y == 100 /\
    zooms newAnalysis !! 0%nat = Some (mkZoom 1 4 top_left "speaker" (Some x) (Some y)).
Proof.
  intros rect z a st.
  assert (Hw : 0 < dom_width rect) by reflexivity.
  assert (Hh : 0 < dom_height rect) by reflexivity.
  assert (Ha : analysis st = Some a) by reflexivity.
  assert (Hz : zooms a !! 0%nat = Some z) by reflexivity.
  assert (Hp : pickingZoomIndex st = Some 0%nat) by reflexivity.
  split; [by repeat split|].
  destruct (picking_click_sets_the_focus_point rect 40 900 st a 0 z Hw Hh Ha Hz)
    as [_ H].
  destruct (H Hp) as (x & y & new & Hret & _ & _ & Hx0 & _ & _ & _ & Hy1 & _
                      & Hzoom & _).
  exists x, y, new. split; [exact Hret|].
  split; [apply Hx0; by apply leb_true|].
  split; [apply Hy1; by apply leb_true|]. exact Hzoom.
Defined.

(** ** Adding a zoom *)

Lemma insert_by_start_perm (z : SmartZoom * bool) (l : list (SmartZoom * bool)) :
  insert_by_start z l ≡ₚ z :: l.
Proof.
  induction l as [|y ys IH]; simpl; [done|].
  destruct (leb _ _); [done|]. rewrite IH. apply Permutation_swap.
Qed.

Lemma sort_by_start_perm (l : list (SmartZoom * bool)) : sort_by_start l ≡ₚ l.
Proof.
  induction l as [|y ys IH]; simpl; [done|].
  by rewrite insert_by_start_perm, IH.
Qed.

(** Inserting before a list whose head does not start earlier. *)
Lemma insert_by_start_head (z y : SmartZoom * bool) (ys : list (SmartZoom * bool)) :
  zoom_start z.1 <= zoom_start y.1 ->
  insert_by_start z (y :: ys) = z :: y :: ys.
Proof. intros H. simpl. by rewrite (proj2 (leb_true _ _) H). Qed.

Lemma insert_by_start_sorted (z : SmartZoom * bool) (l : list (SmartZoom * bool)) :
  StronglySorted (fun p q => zoom_start p.1 <= zoom_start q.1) l ->
  StronglySorted (fun p q => zoom_start p.1 <= zoom_start q.1)
    (insert_by_start z l).
Proof.
  induction 1 as [|y ys Hs IH Hall]; simpl.
  { repeat constructor. }
  destruct (leb (zoom_start z.1) (zoom_start y.1)) eqn:Hle.
  - apply leb_true in Hle. constructor; [by constructor|].
    constructor; [done|].
    eapply Forall_impl; [exact Hall|]. simpl. intros q Hq. lra.
  - assert (Hlt : zoom_start y.1 < zoom_start z.1).
    { apply Qnot_le_lt. intros H. apply leb_true in H. congruence. }
    constructor; [done|].
    rewrite insert_by_start_perm. constructor; [lra | done].
Qed.

Lemma sort_by_start_sorted (l : list (SmartZoom * bool)) :
  StronglySorted (fun p q => zoom_start p.1 <= zoom_start q.1)
    (sort_by_start l).
Proof.
  induction l as [|y ys IH]; simpl; [constructor|].
  by apply insert_by_start_sorted.
Qed.

(** Sorting a sorted array with one element appended: the old elements keep
    their places and the new one goes after every element that does not
    start later. *)
Lemma sort_by_start_append (l : list (SmartZoom * bool)) (x : SmartZoom * bool) :
  StronglySorted (fun p q => zoom_start p.1 <= zoom_start q.1) l ->
  exists k, (k <= length l)%nat /\
    sort_by_start (l ++ [x]) = take k l ++ x :: drop k l /\
    Forall (fun y => zoom_start y.1 <= zoom_start x.1) (take k l) /\
    Forall (fun y => zoom_start x.1 < zoom_start y.1) (drop k l).
Proof.
  induction 1 as [|y ys Hs IH Hall].
  { exists 0%nat. simpl. by repeat split. }
  destruct IH as (k & Hk & Hsort & Hbefore & Hafter).
  change (sort_by_start ((y :: ys) ++ [x]))
    with (insert_by_start y (sort_by_start (ys ++ [x]))).
  rewrite Hsort.
  destruct (leb (zoom_start y.1) (zoom_start x.1)) eqn:Hle.
  - apply leb_true in Hle. exists (S k). split; [simpl; lia|].
    split; [|split; [by constructor | done]].
    simpl. destruct (take k ys) as [|w ws] eqn:Ht.
    + simpl. by rewrite (proj2 (leb_true _ _) Hle).
    + simpl.
      assert (Hw : zoom_start y.1 <= zoom_start w.1).
      { apply (proj1 (Forall_forall _ _) Hall).
        assert (Hin : w ∈ take k ys) by (rewrite Ht; apply list_elem_of_here).
        apply elem_of_take in Hin as (i & Hi & _).
        by eapply list_elem_of_lookup_2. }
      by rewrite (proj2 (leb_true _ _) Hw).
  - assert (Hlt : zoom_start x.1 < zoom_start y.1).
    { apply Qnot_le_lt. intros H. apply leb_true in H. congruence. }
    assert (Hk0 : k = 0%nat).
    { destruct k as [|k]; [done|]. destruct ys as [|w ws]; [simpl in Hk; lia|].
      simpl in Hbefore. apply Forall_cons in Hbefore as [Hw _].
      apply Forall_cons in Hall as [Hyw _]. lra. }
    subst k. rewrite take_0, drop_0 in *. simpl.
    exists 0%nat. split; [lia|].
    split; [|split; [constructor|]].
    + rewrite Hle. f_equal. destruct ys as [|w ws]; [done|].
      apply Forall_cons in Hall as [Hyw _].
      by rewrite insert_by_start_head.
    + simpl. constructor; [done | done].
Qed.

Lemma index_of_marked_middle (pre post : list (SmartZoom * bool))
    (x : SmartZoom) :
  Forall (fun y => y.2 = false) pre ->
  index_of_marked (pre ++ (x, true) :: post) = Some (length pre).
Proof.
  induction 1 as [|y ys Hy _ IH]; simpl; [done|].
  by rewrite Hy, IH.
Qed.

(** The marked object is found wherever the sort puts it. *)
Lemma index_of_marked_sorted (l : list SmartZoom) (x : SmartZoom) :
  exists k,
    index_of_marked
      (sort_by_start (((fun z => (z, false)) <$> l) ++ [(x, true)])) = Some k /\
    (fst <$> sort_by_start (((fun z => (z, false)) <$> l) ++ [(x, true)])) !! k
      = Some x.
Proof.
  set (L := sort_by_start (((fun z => (z, false)) <$> l) ++ [(x, true)])).
  assert (Hin : (x, true) ∈ L).
  { unfold L. rewrite sort_by_start_perm. apply elem_of_app. right.
    apply list_elem_of_here. }
  assert (Hmarked : forall y, y ∈ L -> y.2 = true -> y = (x, true)).
  { intros y Hy Hm. unfold L in Hy. rewrite sort_by_start_perm in Hy.
    apply elem_of_app in Hy as [Hy|Hy].
    - apply list_elem_of_fmap in Hy as (w & -> & _). done.
    - by apply list_elem_of_singleton in Hy. }
  clearbody L. induction L as [|y ys IH]; [by apply elem_of_nil in Hin|].
  simpl. destruct (y.2) eqn:Hy.
  - exists 0%nat. split; [done|]. simpl.
    by rewrite (Hmarked y (list_elem_of_here _ _) Hy).
  - destruct IH as (k & Hk & Hl).
    + apply elem_of_cons in Hin as [Heq|Hin]; [|done].
      subst y. done.
    + intros w Hw. apply Hmarked. by apply list_elem_of_further.
    + exists (S k). by rewrite Hk.
Qed.

(** X7: adding a zoom at time [t].  The handler records one EDL whose zooms
    are the old ones and one new zoom [t, min(duration, t + 3)] centred at
    (50, 50), ordered by start, and starts picking at the index where the
    new zoom stands.  When the old zooms were ordered by start they keep
    their places: removing the new zoom gives the old array back, the zooms
    before it start no later than [t] and the ones after it start later. *)
Theorem add_zoom_inserts_in_order (currentTime duration : Q) (st : AppState)
    (a : AnalysisResult) :
  analysis st = Some a ->
  let newZoom := mkZoom currentTime (Qmin duration (currentTime + 3)) center
                   "Manual Focus" (Some 50) (Some 50) in
  exists newAnalysis k,
    handleAddZoom currentTime duration st
      = Returns (setPickingZoomIndex (Some k) (pushToHistory newAnalysis st)) /\
    zooms newAnalysis !! k = Some newZoom /\
    zooms newAnalysis ≡ₚ zooms a ++ [newZoom] /\
    StronglySorted (fun p q => zoom_start p <= zoom_start q)
      (zooms newAnalysis) /\
    cuts newAnalysis = cuts a /\ chapters newAnalysis = chapters a /\
    subtitles newAnalysis = subtitles a /\
    highlights newAnalysis = highlights a /\
    (StronglySorted (fun p q => zoom_start p <= zoom_start q) (zooms a) ->
     delete k (zooms newAnalysis) = zooms a /\
     Forall (fun z => zoom_start z <= currentTime) (take k (zooms newAnalysis)) /\
     Forall (fun z => currentTime < zoom_start z)
       (drop (S k) (zooms newAnalysis))).
Proof.
  intros Ha newZoom.
  set (marked := ((fun z => (z, false)) <$> zooms a) ++ [(newZoom, true)]).
  assert (Hfst : fst <$> marked = zooms a ++ [newZoom]).
  { unfold marked. rewrite fmap_app, <- list_fmap_compose.
    by rewrite list_fmap_id. }
  destruct (index_of_marked_sorted (zooms a) newZoom) as (k & Hk & Hlook).
  fold marked in Hk, Hlook.
  exists (mkAnalysis (cuts a) (chapters a) (fst <$> sort_by_start marked)
            (subtitles a) (highlights a)), k.
  split.
  { unfold handleAddZoom. rewrite Ha. fold newZoom marked. by rewrite Hk. }
  cbn [zooms cuts chapters subtitles highlights].
  split; [exact Hlook|].
  split; [by rewrite sort_by_start_perm, Hfst|].
  split.
  { eapply (StronglySorted_fmap fst); [|apply sort_by_start_sorted].
    by intros p q. }
  do 4 (split; [done|]).
  intros Hsorted.
  assert (Hs : StronglySorted (fun p q => zoom_start p.1 <= zoom_start q.1)
                 ((fun z => (z, false)) <$> zooms a)).
  { eapply (StronglySorted_fmap (fun z => (z, false))); [|exact Hsorted].
    by intros p q. }
  destruct (sort_by_start_append _ (newZoom, true) Hs)
    as (k' & Hk' & Hsort & Hbefore & Hafter).
  fold marked in Hsort. rewrite length_fmap in Hk'.
  assert (Hkk : k = k').
  { rewrite Hsort, index_of_marked_middle in Hk.
    - rewrite length_take, length_fmap in Hk. injection Hk as <-. lia.
    - apply Forall_forall. intros y Hy.
      apply elem_of_take in Hy as (i & Hi & _).
      apply list_elem_of_lookup_2 in Hi.
      apply list_elem_of_fmap in Hi as (w & -> & _). done. }
  subst k'. rewrite Hsort.
  rewrite <- fmap_take, <- fmap_drop, fmap_app, fmap_cons.
  rewrite <- !list_fmap_compose, !list_fmap_id. simpl.
  assert (Hlen : length (take k (zooms a)) = k) by (rewrite length_take; lia).
  split; [|split].
  - replace (delete k (take k (zooms a) ++ newZoom :: drop k (zooms a)))
      with (delete (length (take k (zooms a)))
              (take k (zooms a) ++ newZoom :: drop k (zooms a)))
      by (by rewrite Hlen).
    by rewrite delete_middle, take_drop.
  - rewrite take_app_length' by done.
    apply Forall_forall. intros z Hz.
    apply (proj1 (Forall_forall _ _) Hbefore (z, false)).
    rewrite <- fmap_take. apply list_elem_of_fmap. eauto.
  - rewrite cons_middle, app_assoc.
    rewrite drop_app_length' by (rewrite length_app, Hlen; simpl; lia).
    apply Forall_forall. intros z Hz.
    apply (proj1 (Forall_forall _ _) Hafter (z, false)).
    rewrite <- fmap_drop. apply list_elem_of_fmap. eauto.
Qed.

(** A zoom added at 5 between zooms that start at 1, 5 and 7. *)
Lemma add_zoom_inserts_in_order_witness :
  let a := mkAnalysis [] [] [mkZoom 1 2 center "a" None None;
                             mkZoom 5 6 center "b" None None;
                             mkZoom 7 8 center "c" None None] [] [] in
  let st := handleAnalyze a (mountEffect None) in
  analysis st = Some a /\
  exists newAnalysis,
    handleAddZoom 5 100 st
      = Returns (setPickingZoomIndex (Some 2%nat) (pushToHistory newAnalysis st)) /\
    zooms newAnalysis !! 2%nat
      = Some (mkZoom 5 8 center "Manual Focus" (Some 50) (Some 50)) /\
    delete 2%nat (zooms newAnalysis) = zooms a.
Proof.
  intros a st.
  assert (Ha : analysis st = Some a) by reflexivity.
  split; [exact Ha|].
  destruct (add_zoom_inserts_in_order 5 100 st a Ha)
    as (new & k & Hret & Hlook & _ & _ & _ & _ & _ & _ & Hsorted).
  assert (Hk : k = 2%nat).
  { assert (H : handleAddZoom 5 100 st
              = Returns (setPickingZoomIndex (Some 2%nat)
                  (pushToHistory
                     (mkAnalysis [] []
                        [mkZoom 1 2 center "a" None None;
                         mkZoom 5 6 center "b" None None;
                         mkZoom 5 8 center "Manual Focus" (Some 50) (Some 50);
                         mkZoom 7 8 center "c" None None] [] []) st)))
      by reflexivity.
    rewrite Hret in H.
    apply (f_equal (fun o => match o with
                             | Returns s => pickingZoomIndex s
                             | _ => None
                             end)) in H.
    simpl in H. congruence. }
  subst k. exists new. split; [exact Hret|]. split; [exact Hlook|].
  apply Hsorted. repeat constructor; by apply leb_true.
Defined.

(** ** More on the playback synchronizer *)

Lemma find_None_iff {A} (f : A -> bool) (l : list A) :
  find f l = None <-> Forall (fun x => f x = false) l.
Proof.
  split; [|apply find_None_Forall].
  induction l as [|x l IH]; simpl; [constructor|].
  destruct (f x) eqn:Hx; [done|]. intros H. constructor; [done | by apply IH].
Qed.

Lemma no_cut_matches (t : Q) (l : list CutSegment) :
  find (cut_matches t) l = None <->
  Forall (fun c => ~ (cut_start c <= t /\ t < cut_end c)) l.
Proof.
  rewrite find_None_iff. apply Forall_iff. intros c.
  rewrite <- cut_matches_true. by destruct (cut_matches t c).
Qed.

(** X8: a tick on which no cut matches overrides whatever the player showed
    before.  The subtitle, the zoom style and the zoom point after the tick
    are functions of the time and the EDL alone: two players at the same
    time end with the same three values whatever they held.  The subtitle is
    the first one that matches (none when none does); with no zoom matching
    the style is the identity (scale 1, origin center, 0.8s) and there is
    no zoom point; the tick does not move the video. *)
Theorem tick_without_cut_leaves_nothing_stale (a : AnalysisResult)
    (st1 st2 : PlayerState) :
  videoTime st1 = videoTime st2 ->
  Forall (fun c => ~ (cut_start c <= videoTime st1 /\ videoTime st1 < cut_end c))
    (cuts a) ->
  let t := videoTime st1 in
  currentSubtitle (tick (Some a) st1) = currentSubtitle (tick (Some a) st2) /\
  zoomStyle (tick (Some a) st1) = zoomStyle (tick (Some a) st2) /\
  zoomPoint (tick (Some a) st1) = zoomPoint (tick (Some a) st2) /\
  currentSubtitle (tick (Some a) st1) = find (subtitle_matches t) (subtitles a) /\
  (Forall (fun s => ~ (sub_start s <= t /\ t <= sub_end s)) (subtitles a) ->
   currentSubtitle (tick (Some a) st1) = None) /\
  (Forall (fun z => ~ (zoom_start z <= t /\ t <= zoom_end z)) (zooms a) ->
   zoomStyle (tick (Some a) st1) = Some (mkStyle 1 OriginCenter (4 # 5)) /\
   zoomPoint (tick (Some a) st1) = None) /\
  videoTime (tick (Some a) st1) = t /\
  skipNotification (tick (Some a) st1) = skipNotification st1.
Proof.
  intros Ht Hnocut t. apply no_cut_matches in Hnocut. subst t.
  unfold tick. rewrite <- Ht.
  rewrite (handleTimeUpdate_no_cut _ _ Hnocut).
  split; [by destruct (find _ (zooms a))|].
  split; [by destruct (find _ (zooms a))|].
  split; [by destruct (find _ (zooms a))|].
  split; [by destruct (find _ (zooms a))|].
  split.
  { intros Hs. rewrite (find_None_Forall (subtitle_matches (videoTime st1))).
    - by destruct (find _ (zooms a)).
    - eapply Forall_impl; [exact Hs|]. intros s Hn.
      apply not_true_iff_false. by rewrite subtitle_matches_true. }
  split.
  { intros Hz. rewrite (find_None_Forall (zoom_matches (videoTime st1))); [done|].
    eapply Forall_impl; [exact Hz|]. intros z Hn.
    apply not_true_iff_false. by rewrite zoom_matches_true. }
  by destruct (find _ (zooms a)).
Qed.

(** Two players at 6, past the only subtitle and zoom; one still shows
    them. *)
Lemma tick_without_cut_leaves_nothing_stale_witness :
  let a := mkAnalysis [mkCut 0 2 "silence"] []
             [mkZoom 2 5 center "speaker" (Some 30) (Some 40)]
             [mkSubtitle 2 5 "hello world"] [] in
  let stale := mkPlayer 6 5 (Some (mkSubtitle 2 5 "hello world"))
                 (Some (mkStyle (5 # 2) (OriginPercent 30 40) (4 # 5)))
                 (Some (30, 40)) None [] in
  let fresh := mkPlayer 6 0 None None None None [] in
  (videoTime stale = videoTime fresh /\
   Forall (fun c => ~ (cut_start c <= 6 /\ 6 < cut_end c)) (cuts a)) /\
  currentSubtitle (tick (Some a) stale) = None /\
  zoomStyle (tick (Some a) stale) = zoomStyle (tick (Some a) fresh).
Proof.
  intros a stale fresh.
  assert (Ht : videoTime stale = videoTime fresh) by reflexivity.
  assert (Hc : Forall (fun c => ~ (cut_start c <= videoTime stale /\
                                   videoTime stale < cut_end c)) (cuts a)).
  { repeat constructor. intros [_ H]. by apply ltb_true in H. }
  destruct (tick_without_cut_leaves_nothing_stale a stale fresh Ht Hc)
    as (_ & Hz & _ & Hs & _).
  split; [by split|]. split; [by rewrite Hs | exact Hz].
Defined.









(** ** More on word highlighting *)





(** ** Seeking by a click *)

(** X11: a click on the waveform or on the timeline seeks inside the video.
    With a box of positive width and a duration above 0 the handler calls
    [onSeek] with a time in [0, duration]: 0 for a click at or left of the
    box, the duration at or right of it, the proportional time in between.
    With a duration of 0 (no metadata yet) or no box it does not seek.  The
    two handlers agree. *)
Theorem click_seeks_within_the_video (rect : DOMRect) (duration clientX : Q) :
  0 < dom_width rect ->
  0 <= duration ->
  Timeline_handleClick (Some rect) duration clientX
    = Waveform_handleClick (Some rect) duration clientX /\
  Waveform_handleClick None duration clientX = None /\
  (duration == 0 -> Waveform_handleClick (Some rect) duration clientX = None) /\
  (0 < duration ->
   exists t,
     Waveform_handleClick (Some rect) duration clientX = Some t /\
     0 <= t /\ t <= duration /\
     (clientX <= dom_left rect -> t == 0) /\
     (dom_left rect + dom_width rect <= clientX -> t == duration) /\
     (dom_left rect <= clientX -> clientX <= dom_left rect + dom_width rect ->
      t == ((clientX - dom_left rect) / dom_width rect) * duration)).
Proof.
  intros Hw Hd. split; [done|]. split; [done|].
  split.
  { intros H0. unfold Waveform_handleClick.
    by rewrite (proj2 (Qeq_bool_iff _ _) H0). }
  intros Hpos. unfold Waveform_handleClick.
  destruct (Qeq_bool duration 0) eqn:He.
  { apply Qeq_bool_iff in He. lra. }
  set (v := (clientX - dom_left rect) / dom_width rect).
  set (p := Qmax 0 (Qmin 1 v)).
  assert (Hp : 0 <= p /\ p <= 1).
  { split; [apply Q.le_max_l|]. apply Q.max_lub; [lra | apply Q.le_min_l]. }
  assert (Hv0 : clientX <= dom_left rect -> v <= 0).
  { intros H. apply Qle_shift_div_r; [done | lra]. }
  assert (Hv1 : dom_left rect + dom_width rect <= clientX -> 1 <= v).
  { intros H. apply Qle_shift_div_l; [done | lra]. }
  assert (Hv2 : dom_left rect <= clientX -> 0 <= v).
  { intros H. apply Qle_shift_div_l; [done | lra]. }
  assert (Hv3 : clientX <= dom_left rect + dom_width rect -> v <= 1).
  { intros H. apply Qle_shift_div_r; [done | lra]. }
  exists (p * duration). split; [done|].
  split; [nra|]. split; [nra|].
  split; [|split].
  - intros H. unfold p. rewrite Q.max_l; [lra|].
    eapply Qle_trans; [apply Q.le_min_r | by apply Hv0].
  - intros H. unfold p. rewrite Q.min_l by (by apply Hv1).
    rewrite Q.max_r by lra. lra.
  - intros H1 H2. unfold p. rewrite Q.min_r by (by apply Hv3).
    by rewrite Q.max_r by (by apply Hv2).
Qed.

(** A click in the middle of a 400 pixel box, in a video of 90 seconds. *)
Lemma click_seeks_within_the_video_witness :
  let rect := mkDOMRect 100 0 400 64 in
  (0 < dom_width rect /\ 0 <= 90 /\ 0 < 90) /\
  exists t, Timeline_handleClick (Some rect) 90 300 = Some t /\ t == 45.
Proof.
  intros rect.
  assert (Hw : 0 < dom_width rect) by reflexivity.
  assert (Hd : 0 <= 90) by (by apply leb_true).
  assert (Hp : 0 < 90) by reflexivity.
  destruct (click_seeks_within_the_video rect 90 300 Hw Hd) as (Hsame & _ & _ & H).
  destruct (H Hp) as (t & Ht & _ & _ & _ & _ & Hmid).
  split; [by repeat split|]. exists t. split; [by rewrite Hsame|].
  rewrite Hmid; [reflexivity | by apply leb_true | by apply leb_true].
Defined.

(** ** More on the waveform *)

(** X12: no sample is left out of the waveform.  On a canvas of width
    [W > 0] every sample of the buffer lies in the chunk of exactly one
    column [i < W], and the pair drawn for that column bounds it. *)
Theorem every_sample_is_in_one_column (data : list Q) (W j : nat) (d : Q) :
  (0 < W)%nat ->
  data !! j = Some d ->
  let step := step_of (length data) W in
  exists i mn mx,
    (i < W)%nat /\
    (i * step <= j < i * step + step)%nat /\
    peaks data W !! i = Some (mn, mx) /\
    mn <= d /\ d <= mx /\
    (forall i', (i' * step <= j < i' * step + step)%nat -> i' = i).
Proof.
  intros HW Hd step.
  pose proof (lookup_lt_Some _ _ _ Hd) as Hj.
  destruct (step_of_ceiling (length data) W HW) as [Hcover _].
  fold step in Hcover.
  assert (Hstep : (0 < step)%nat) by nia.
  exists (j / step)%nat.
  assert (Hdiv : (j / step * step <= j < j / step * step + step)%nat).
  { pose proof (Nat.div_mod_eq j step) as Heq.
    pose proof (Nat.mod_upper_bound j step) as Hmod. lia. }
  assert (Hi : (j / step < W)%nat).
  { apply Nat.Div0.div_lt_upper_bound. lia. }
  destruct (peak_bounds data step (j / step)) as (Hall & _).
  destruct (peak data step (j / step)) as [mn mx] eqn:Hp.
  exists mn, mx. split; [done|]. split; [done|].
  split; [by rewrite peaks_lookup, <- Hp|].
  destruct (Hall j d Hdiv Hd) as [Hlo Hhi]. simpl in *.
  split; [done|]. split; [done|].
  intros i' Hi'. apply (Nat.div_unique j step i' (j - i' * step)); lia.
Qed.

(** The last sample of a buffer of ten on a canvas four pixels wide. *)
Lemma every_sample_is_in_one_column_witness :
  let data := [0; 1 # 2; - (1 # 2); 1 # 4; 0; 0; 0; 0; 0; - (1)] in
  ((0 < 4)%nat /\ data !! 9%nat = Some (- (1))) /\
  exists i mn mx, (i < 4)%nat /\ peaks data 4 !! i = Some (mn, mx) /\
                  mn <= - (1) /\ - (1) <= mx.
Proof.
  intros data.
  assert (HW : (0 < 4)%nat) by lia.
  assert (Hd : data !! 9%nat = Some (- (1))) by reflexivity.
  destruct (every_sample_is_in_one_column data 4 9 _ HW Hd)
    as (i & mn & mx & Hi & _ & Hp & Hlo & Hhi & _).
  split; [by split|]. by exists i, mn, mx.
Defined.

Lemma draw_column_lookup (data : list Q) (a : option AnalysisResult)
    (duration : Q) (canvas : Canvas) (i : nat) :
  (i < canvas_width canvas)%nat ->
  painted (draw data a duration canvas) !! i
  = Some (column (of_nat (canvas_height canvas) / 2) i
            (peak data (step_of (length data) (canvas_width canvas)) i)).
Proof.
  intros Hi. unfold draw. cbn [painted]. rewrite app_nil_l.
  assert (Hlen : length (peaks data (canvas_width canvas)) = canvas_width canvas).
  { unfold peaks. by rewrite length_fmap, length_seq. }
  rewrite lookup_app_l by (rewrite length_imap; lia).
  by rewrite list_lookup_imap, peaks_lookup.
Qed.

(** The scan of a chunk that lies past the end of the buffer leaves the
    pair it starts from. *)
Lemma peak_past_the_end (data : list Q) (step i : nat) :
  (length data <= i * step)%nat -> peak data step i = (1, - (1)).
Proof.
  intros Hlen. unfold peak.
  assert (H : forall l acc, foldl (scan data (i * step)) acc l = acc).
  { induction l as [|j l IH]; intros acc; [done|]. simpl.
    unfold scan at 2. rewrite lookup_ge_None_2 by lia. apply IH. }
  apply H.
Qed.

(** X13: where the waveform is drawn.  With samples in [-1, 1] both
    components of every pair are in [-1, 1] and the line of every column
    starts inside the canvas, at a height in [0, height].  A column whose
    chunk starts inside the buffer has [min <= max] and its span from
    [yMin] to [yMax] stays inside the canvas; a column whose chunk lies past
    the end of the buffer keeps the pair (1, -1) and is drawn as a mark of
    height 1 at the bottom edge. *)
Theorem waveform_stays_on_the_canvas (data : list Q) (a : option AnalysisResult)
    (duration : Q) (canvas : Canvas) (i : nat) :
  (0 < canvas_width canvas)%nat ->
  (i < canvas_width canvas)%nat ->
  Forall (fun d => - (1) <= d /\ d <= 1) data ->
  let W := canvas_width canvas in
  let H := of_nat (canvas_height canvas) in
  let step := step_of (length data) W in
  exists mn mx r,
    peaks data W !! i = Some (mn, mx) /\
    painted (draw data a duration canvas) !! i = Some r /\
    (- (1) <= mn /\ mn <= 1) /\ (- (1) <= mx /\ mx <= 1) /\
    (0 <= rect_y r /\ rect_y r <= H) /\
    ((i * step < length data)%nat ->
     mn <= mx /\ rect_h r == Qmax 1 ((mx - mn) * (H / 2)) /\
     rect_y r + (mx - mn) * (H / 2) <= H) /\
    ((length data <= i * step)%nat ->
     (mn, mx) = (1, - (1)) /\ rect_y r == H /\ rect_h r == 1).
Proof.
  intros HW Hi Hrange W H step.
  destruct (peak_bounds data step i) as (Hall & Hmin & Hmax).
  destruct (peak data step i) as [mn mx] eqn:Hp. simpl in Hall, Hmin, Hmax.
  exists mn, mx, (column (H / 2) i (mn, mx)).
  assert (HH : 0 <= H).
  { unfold H. change 0 with (of_nat 0). apply of_nat_le. lia. }
  assert (Hmn : - (1) <= mn /\ mn <= 1).
  { destruct Hmin as [-> | (j & _ & Hj)]; [lra|].
    apply (proj1 (Forall_forall _ _) Hrange). by eapply list_elem_of_lookup_2. }
  assert (Hmx : - (1) <= mx /\ mx <= 1).
  { destruct Hmax as [-> | (j & _ & Hj)]; [lra|].
    apply (proj1 (Forall_forall _ _) Hrange). by eapply list_elem_of_lookup_2. }
  split; [by rewrite peaks_lookup, <- Hp|].
  split; [unfold H, W; rewrite draw_column_lookup by done; fold W step;
          by rewrite Hp|].
  split; [done|]. split; [done|].
  cbn [column rect_y rect_h fst snd].
  assert (Hamp : 2 * (H / 2) == H) by field.
  set (amp := H / 2) in *.
  assert (Hamp0 : 0 <= amp) by lra.
  split; [split; nra|].
  split.
  - intros Hin.
    destruct (step_of_ceiling (length data) W HW) as [Hcover _].
    fold step in Hcover.
    assert (Hstep : (0 < step)%nat) by nia.
    destruct (lookup_lt_is_Some_2 data (i * step)) as [d0 Hd0]; [done|].
    destruct (Hall (i * step)%nat d0) as [Hlo Hhi]; [lia | done |].
    split; [lra|]. split; [|nra].
    apply Q.max_compat; [reflexivity | ring].
  - intros Hout. rewrite (peak_past_the_end data step i Hout) in Hp.
    injection Hp as <- <-. split; [done|].
    split; [lra|]. apply Q.max_l. nra.
Qed.

(** Five samples on a canvas four pixels wide and ten high: the step is 2,
    and the last column, past the end of the buffer, is a mark at the
    bottom edge. *)
Lemma waveform_stays_on_the_canvas_witness :
  let data := [0; 1 # 2; - (1 # 2); 1 # 4; 0] in
  let canvas := mkCanvas 4 10 [] in
  ((0 < canvas_width canvas)%nat /\ (3 < canvas_width canvas)%nat /\
   Forall (fun d => - (1) <= d /\ d <= 1) data) /\
  exists r, painted (draw data None 1 canvas) !! 3%nat = Some r /\
            rect_y r == 10 /\ rect_h r == 1.
Proof.
  intros data canvas.
  assert (HW : (0 < canvas_width canvas)%nat) by (simpl; lia).
  assert (Hi : (3 < canvas_width canvas)%nat) by (simpl; lia).
  assert (Hr : Forall (fun d => - (1) <= d /\ d <= 1) data).
  { repeat constructor; by apply leb_true. }
  destruct (waveform_stays_on_the_canvas data None 1 canvas 3 HW Hi Hr)
    as (mn & mx & r & _ & Hp & _ & _ & _ & _ & Hout).
  split; [by repeat split|]. exists r. split; [exact Hp|].
  destruct Hout as (_ & Hy & Hh); [simpl; lia|]. by split.
Defined.

(** X14: the cut overlays of the waveform.  For a positive duration every
    cut gets three rectangles (the tint and two edge lines); when the cut
    lies inside the video ([0 <= start <= end <= duration]) each of them
    starts at [start / duration] of the width, is as wide as the cut is
    long, and stays between the left and the right edge of the canvas.
    With a duration that is not positive nothing is overlaid. *)
Theorem cut_overlays_stay_on_the_canvas (a : AnalysisResult) (duration : Q)
    (width height : nat) :
  (~ 0 < duration -> cut_overlays (Some a) duration width height = []) /\
  (0 < duration ->
   length (cut_overlays (Some a) duration width height)
     = (3 * length (cuts a))%nat /\
   forall r, r ∈ cut_overlays (Some a) duration width height ->
     exists cut, cut ∈ cuts a /\
       rect_x r == (cut_start cut / duration) * of_nat width /\
       rect_w r == ((cut_end cut - cut_start cut) / duration) * of_nat width /\
       (0 <= cut_start cut -> cut_start cut <= cut_end cut ->
        cut_end cut <= duration ->
        0 <= rect_x r /\ 0 <= rect_w r /\
        rect_x r + rect_w r <= of_nat width)).
Proof.
  split.
  - intros Hd. unfold cut_overlays.
    destruct (gtb duration 0) eqn:Hg; [by apply gtb_true in Hg|].
    by rewrite andb_false_r.
  - intros Hd. unfold cut_overlays.
    rewrite (proj2 (gtb_true _ _) Hd), andb_true_r.
    assert (Hbind : forall l, length (l ≫= cut_overlay duration width height)
                              = (3 * length l)%nat).
    { induction l as [|c l IH]; [done|].
      rewrite bind_cons, length_app, IH. simpl. lia. }
    split.
    { case_bool_decide as Hne; [apply Hbind|].
      destruct (cuts a); [done | simpl in Hne; lia]. }
    intros r Hr.
    assert (Hin : r ∈ cuts a ≫= cut_overlay duration width height).
    { case_bool_decide; [done | by apply elem_of_nil in Hr]. }
    apply list_elem_of_bind in Hin as (cut & Hrc & Hcut).
    exists cut. split; [done|].
    assert (HW : 0 <= of_nat width).
    { change 0 with (of_nat 0). apply of_nat_le. lia. }
    assert (Hx : rect_x r = (cut_start cut / duration) * of_nat width /\
                 rect_w r = (cut_end cut / duration) * of_nat width
                            - (cut_start cut / duration) * of_nat width).
    { unfold cut_overlay in Hrc.
      repeat (apply elem_of_cons in Hrc as [->|Hrc]; [done|]).
      by apply elem_of_nil in Hrc. }
    destruct Hx as [-> ->].
    split; [reflexivity|]. split; [field; lra|].
    intros H0 H1 H2.
    assert (Hs : 0 <= cut_start cut / duration)
      by (apply Qle_shift_div_l; lra).
    assert (He : cut_end cut / duration <= 1)
      by (apply Qle_shift_div_r; lra).
    assert (Hse : cut_start cut / duration <= cut_end cut / duration).
    { unfold Qdiv. apply Qmult_le_compat_r; [done|].
      apply Qinv_le_0_compat. lra. }
    split; [nra|]. split; nra.
Qed.

(** The cut {0, 2} in a video of 10 seconds on a canvas 400 wide. *)
Lemma cut_overlays_stay_on_the_canvas_witness :
  0 < 10 /\
  length (cut_overlays (Some edl_one_cut) 10 400 64) = 3%nat /\
  forall r, r ∈ cut_overlays (Some edl_one_cut) 10 400 64 ->
    0 <= rect_x r /\ rect_x r + rect_w r <= of_nat 400.
Proof.
  assert (Hd : 0 < 10) by reflexivity.
  destruct (cut_overlays_stay_on_the_canvas edl_one_cut 10 400 64) as [_ H].
  destruct (H Hd) as [Hlen Hall].
  split; [exact Hd|]. split; [exact Hlen|].
  intros r Hr. destruct (Hall r Hr) as (cut & Hcut & _ & _ & Hin).
  apply list_elem_of_singleton in Hcut. subst cut.
  destruct Hin as (H1 & _ & H2); [by apply leb_true..|]. by split.
Defined.

(** ** Time strings *)

Lemma split_no_sep (sep : Ascii.ascii) (s : string) :
  occurs sep s = false -> split sep s = [s].
Proof.
  induction s as [|c rest IH]; [done|]. simpl.
  intros H. apply orb_false_elim in H as [Hc Hrest].
  by rewrite Hc, (IH Hrest).
Qed.

Lemma split_at_sep (sep : Ascii.ascii) (s1 s2 : string) :
  occurs sep s1 = false ->
  split sep (s1 +:+ String sep s2) = s1 :: split sep s2.
Proof.
  induction s1 as [|c rest IH]; simpl.
  - intros _. by rewrite Ascii.eqb_refl.
  - intros H. apply orb_false_elim in H as [Hc Hrest].
    by rewrite Hc, (IH Hrest).
Qed.

Lemma occurs_app (c : Ascii.ascii) (s1 s2 : string) :
  occurs c (s1 +:+ s2) = occurs c s1 || occurs c s2.
Proof.
  induction s1 as [|c' rest IH]; [done|]. simpl.
  by rewrite IH, orb_assoc.
Qed.

(** The string of a number that is not negative holds digits only. *)
Lemma toString_digits (z : Z) :
  (0 <= z)%Z -> occurs ":" (toString z) = false.
Proof.
  intros Hz. unfold toString.
  assert (H : forall d, occurs ":" (NilEmpty.string_of_uint d) = false).
  { induction d; simpl; by rewrite ?IHd. }
  destruct z as [|p|p]; [done| apply H | lia].
Qed.

Lemma Number_toString (z : Z) :
  (0 <= z)%Z -> Number (toString z) = Some (inject_Z z).
Proof.
  intros Hz. unfold Number, toString.
  destruct z as [|p|p]; [done| |lia]. simpl.
  rewrite NilEmpty.usu. simpl. unfold Z.of_uint.
  by rewrite DecimalPos.Unsigned.of_to.
Qed.

Lemma Number_leading_zero (s : string) : Number (String "0" s) = Number s.
Proof.
  unfold Number. simpl. by destruct (NilEmpty.uint_of_string s).
Qed.

Lemma Number_padStart (n : nat) (s : string) (q : Q) :
  Number s = Some q -> Number (padStart n "0" s) = Some q.
Proof.
  intros Hs. unfold padStart.
  induction (n - String.length s)%nat as [|k IH]; [done|].
  change (string_of_list_ascii (replicate (S k) "0"%char) +:+ s)
    with (String "0" (string_of_list_ascii (replicate k "0"%char) +:+ s)).
  by rewrite Number_leading_zero.
Qed.

Lemma occurs_padStart (n : nat) (s : string) :
  occurs ":" s = false -> occurs ":" (padStart n "0" s) = false.
Proof.
  intros Hs. unfold padStart.
  induction (n - String.length s)%nat as [|k IH]; [done|]. by simpl.
Qed.

Lemma Qfloor_unique (q : Q) (m : Z) :
  inject_Z m <= q -> q < inject_Z (m + 1) -> Qfloor q = m.
Proof.
  intros Hlo Hhi.
  pose proof (Qfloor_resp_le _ _ Hlo) as H1. rewrite Qfloor_Z in H1.
  pose proof (Qfloor_le q) as H2.
  assert (H3 : (Qfloor q < m + 1)%Z).
  { rewrite Zlt_Qlt. by eapply Qle_lt_trans. }
  lia.
Qed.

(** Minutes and seconds of a time that is not negative. *)
Lemma minutes_and_seconds (seconds : Q) :
  0 <= seconds ->
  let mins := Qfloor (seconds / 60) in
  let secs := Qfloor (js_rem seconds 60) in
  (0 <= mins)%Z /\ (0 <= secs < 60)%Z /\ (mins * 60 + secs = Qfloor seconds)%Z.
Proof.
  intros Hs mins secs.
  assert (Hq : 0 <= seconds / 60) by (apply Qle_shift_div_l; lra).
  assert (Hmins : (0 <= mins)%Z).
  { change 0%Z with (Qfloor (inject_Z 0)). by apply Qfloor_resp_le. }
  assert (Hlo : inject_Z mins <= seconds / 60) by apply Qfloor_le.
  assert (Hhi : seconds / 60 < inject_Z (mins + 1)) by apply Qlt_floor.
  rewrite inject_Z_plus in Hhi. change (inject_Z 1) with 1 in Hhi.
  assert (Hv : seconds == seconds / 60 * 60) by field.
  assert (Hlo' : inject_Z mins * 60 <= seconds) by lra.
  assert (Hhi' : seconds < (inject_Z mins + 1) * 60) by lra.
  assert (Hrem : js_rem seconds 60 == seconds - inject_Z (60 * mins)).
  { unfold js_rem, Qtrunc. rewrite (proj2 (Qle_bool_iff _ _) Hq).
    fold mins. rewrite inject_Z_mult. reflexivity. }
  assert (Hsub : forall x y, inject_Z (x - y) == inject_Z x - inject_Z y).
  { intros x y. unfold Z.sub. rewrite inject_Z_plus, inject_Z_opp. reflexivity. }
  assert (Hsecs : secs = (Qfloor seconds - 60 * mins)%Z).
  { unfold secs. rewrite (Qfloor_comp _ _ Hrem).
    apply Qfloor_unique.
    - rewrite Hsub. pose proof (Qfloor_le seconds). lra.
    - replace (Qfloor seconds - 60 * mins + 1)%Z
        with (Qfloor seconds + 1 - 60 * mins)%Z by lia.
      rewrite Hsub. pose proof (Qlt_floor seconds). lra. }
  assert (Hf1 : (60 * mins <= Qfloor seconds)%Z).
  { rewrite <- (Qfloor_Z (60 * mins)). apply Qfloor_resp_le.
    rewrite inject_Z_mult. change (inject_Z 60) with 60. lra. }
  assert (Hf2 : (Qfloor seconds < 60 * mins + 60)%Z).
  { rewrite Zlt_Qlt. eapply Qle_lt_trans; [apply Qfloor_le|].
    rewrite inject_Z_plus, inject_Z_mult.
    change (inject_Z 60) with 60. lra. }
  lia.
Qed.

Lemma parse_formatTime (seconds : Q) :
  0 <= seconds ->
  parseTimeString (formatTime seconds)
  = Some (inject_Z (Qfloor (seconds / 60)) * 60
          + inject_Z (Qfloor (js_rem seconds 60))) /\
  inject_Z (Qfloor (seconds / 60)) * 60 + inject_Z (Qfloor (js_rem seconds 60))
  == inject_Z (Qfloor seconds).
Proof.
  intros Hs.
  destruct (minutes_and_seconds seconds Hs) as (Hm & Hsec & Hsum).
  set (mins := Qfloor (seconds / 60)) in *.
  set (secs := Qfloor (js_rem seconds 60)) in *.
  split.
  - unfold parseTimeString, formatTime. fold mins secs.
    change (":" +:+ padStart 2 "0" (toString secs))
      with (String ":" (padStart 2 "0" (toString secs))).
    rewrite split_at_sep by (by apply toString_digits).
    rewrite split_no_sep
      by (apply occurs_padStart, toString_digits; lia).
    simpl. rewrite Number_toString by done.
    by rewrite (Number_padStart 2 _ (inject_Z secs))
      by (apply Number_toString; lia).
  - rewrite <- Hsum, inject_Z_plus, inject_Z_mult. reflexivity.
Qed.

(** X15: a time printed by [formatTime] and read back by [parseTimeString]
    comes back cut down to whole seconds.  For every time that is not
    negative the printed string is the minutes, a colon and the seconds
    (between 0 and 59, zero-padded to two digits), and parsing it gives the
    floor of the time: the fraction of a second is lost. *)
Theorem time_string_round_trip (seconds : Q) :
  0 <= seconds ->
  exists mins secs q,
    (0 <= mins)%Z /\ (0 <= secs < 60)%Z /\
    formatTime seconds = toString mins +:+ ":" +:+ padStart 2 "0" (toString secs) /\
    String.length (padStart 2 "0" (toString secs)) = 2%nat /\
    parseTimeString (formatTime seconds) = Some q /\
    q == inject_Z (Qfloor seconds) /\
    q <= seconds /\ seconds < q + 1.
Proof.
  intros Hs.
  destruct (minutes_and_seconds seconds Hs) as (Hm & Hsec & Hsum).
  destruct (parse_formatTime seconds Hs) as [Hparse Hq].
  set (mins := Qfloor (seconds / 60)) in *.
  set (secs := Qfloor (js_rem seconds 60)) in *.
  exists mins, secs, (inject_Z mins * 60 + inject_Z secs).
  split; [done|]. split; [done|]. split; [done|].
  split.
  { unfold padStart, toString.
    destruct secs as [|p|p]; [done| |lia].
    assert (Hp : (Z.pos p < 60)%Z) by lia.
    do 6 (destruct p as [p|p|]; try done; try lia). }
  split; [done|]. split; [done|]. rewrite Hq.
  split; [apply Qfloor_le|].
  pose proof (Qlt_floor seconds) as H. rewrite inject_Z_plus in H. exact H.
Qed.

(** 62.5 seconds print as 1:02 and parse as 62. *)
Lemma time_string_round_trip_witness :
  0 <= 125 # 2 /\
  formatTime (125 # 2) = "1:02" /\
  exists q, parseTimeString (formatTime (125 # 2)) = Some q /\ q == 62.
Proof.
  assert (Hs : 0 <= 125 # 2) by (by apply leb_true).
  destruct (time_string_round_trip (125 # 2) Hs)
    as (mins & secs & q & _ & _ & _ & _ & Hp & Hq & _).
  split; [exact Hs|]. split; [reflexivity|].
  exists q. split; [exact Hp|]. rewrite Hq. reflexivity.
Defined.

(** X16: opening the editor of a cut and saving it without touching a field
    is not the identity.  For a cut with times that are not negative, at a
    valid index, the editor hands [onUpdate] the floors of the start and of
    the end together with the reason, and the EDL recorded has at that index
    the cut cut down to whole seconds (every other cut untouched): a cut
    shorter than a second that does not contain a whole second becomes
    empty. *)
Theorem saving_a_cut_rounds_its_times (st : AppState) (a : AnalysisResult)
    (index : nat) (cut : CutSegment) :
  0 <= cut_start cut ->
  0 <= cut_end cut ->
  analysis st = Some a ->
  cuts a !! index = Some cut ->
  exists start end_ newAnalysis,
    CutItem_handleSave (CutItem_handleEdit cut)
      = Some (mkPartialCut (Some start) (Some end_) (Some (cut_reason cut))) /\
    start == inject_Z (Qfloor (cut_start cut)) /\
    end_ == inject_Z (Qfloor (cut_end cut)) /\
    handleCutUpdate index
      (mkPartialCut (Some start) (Some end_) (Some (cut_reason cut))) st
      = Returns (pushToHistory newAnalysis st) /\
    cuts newAnalysis !! index = Some (mkCut start end_ (cut_reason cut)) /\
    (forall j, j <> index -> cuts newAnalysis !! j = cuts a !! j) /\
    (Qfloor (cut_start cut) = Qfloor (cut_end cut) -> start == end_).
Proof.
  intros Hs He Ha Hcut.
  destruct (parse_formatTime _ Hs) as [Hps Hqs].
  destruct (parse_formatTime _ He) as [Hpe Hqe].
  pose proof (lookup_lt_Some _ _ _ Hcut) as Hlen.
  eexists _, _, _. split.
  { unfold CutItem_handleSave, CutItem_handleEdit.
    cbn [startStr endStr reason]. by rewrite Hps, Hpe. }
  split; [done|]. split; [done|].
  split.
  { unfold handleCutUpdate, store_merged. by rewrite Ha, Hcut. }
  cbn [cuts]. split; [by rewrite list_lookup_insert_eq|].
  split; [intros j Hj; by rewrite list_lookup_insert_ne|].
  intros Heq. by rewrite Hqs, Hqe, Heq.
Qed.

(** The cut {0.5, 0.9}: saved unchanged it becomes {0, 0}. *)
Lemma saving_a_cut_rounds_its_times_witness :
  let cut := mkCut (1 # 2) (9 # 10) "click" in
  let a := mkAnalysis [cut] [] [] [] [] in
  let st := handleAnalyze a (mountEffect None) in
  (0 <= cut_start cut /\ 0 <= cut_end cut /\ analysis st = Some a /\
   cuts a !! 0%nat = Some cut) /\
  exists start end_,
    CutItem_handleSave (CutItem_handleEdit cut)
      = Some (mkPartialCut (Some start) (Some end_) (Some "click")) /\
    start == 0 /\ end_ == 0.
Proof.
  intros cut a st.
  assert (Hs : 0 <= cut_start cut) by (by apply leb_true).
  assert (He : 0 <= cut_end cut) by (by apply leb_true).
  assert (Ha : analysis st = Some a) by reflexivity.
  assert (Hc : cuts a !! 0%nat = Some cut) by reflexivity.
  destruct (saving_a_cut_rounds_its_times st a 0 cut Hs He Ha Hc)
    as (s & e & new & Hsave & Hqs & Hqe & _).
  split; [by repeat split|]. exists s, e. split; [exact Hsave|].
  split; [by rewrite Hqs | by rewrite Hqe].
Defined.

(** ** The subtitle tab of the sidebar *)

Lemma filtered_indices_sorted {A} (P : A * nat -> Prop)
    `{!forall p, Decision (P p)} (l : list A) :
  forall off,
  StronglySorted (fun p q : A * nat => (p.2 < q.2)%nat)
    (filter P (imap (fun i x => (x, (off + i)%nat)) l)) /\
  Forall (fun p : A * nat => (off <= p.2)%nat)
    (filter P (imap (fun i x => (x, (off + i)%nat)) l)).
Proof.
  induction l as [|x l IH]; intros off; [by split; constructor|].
  rewrite imap_cons.
  rewrite (imap_ext _ (fun i y => (y, (S off + i)%nat)))
    by (intros i y _; simpl; f_equal; lia).
  destruct (IH (S off)) as [Hs Hall].
  rewrite filter_cons. case_decide.
  - split.
    + constructor; [done|].
      eapply Forall_impl; [exact Hall|]. simpl. intros p Hp. lia.
    + constructor; [simpl; lia|].
      eapply Forall_impl; [exact Hall|]. simpl. intros p Hp. lia.
  - split; [done|].
    eapply Forall_impl; [exact Hall|]. simpl. intros p Hp. lia.
Qed.

(** X17: the search of the subtitle tab keeps every subtitle with its index
    in the EDL.  A pair is listed exactly when the subtitle stands at that
    index and its text passes the search; the list is in the order of the
    EDL; so an edit made on a listed row, which calls the handler with the
    listed index, changes the text of the listed subtitle. *)
Theorem search_results_keep_their_index (includes : string -> string -> bool)
    (st : AppState) (a : AnalysisResult) (subtitleSearch : string) :
  analysis st = Some a ->
  let listed := filteredSubtitles includes (subtitles a) subtitleSearch in
  (forall sub i, (sub, i) ∈ listed <->
                 subtitles a !! i = Some sub /\
                 includes (sub_text sub) subtitleSearch = true) /\
  StronglySorted (fun p q : Subtitle * nat => (p.2 < q.2)%nat) listed /\
  (forall sub i newText, (sub, i) ∈ listed ->
     exists newAnalysis,
       handleSubtitleUpdate i newText st
         = Returns (pushToHistory newAnalysis st) /\
       subtitles newAnalysis !! i
         = Some (mkSubtitle (sub_start sub) (sub_end sub) newText)).
Proof.
  intros Ha listed.
  assert (Hmem : forall sub i, (sub, i) ∈ listed <->
                   subtitles a !! i = Some sub /\
                   includes (sub_text sub) subtitleSearch = true).
  { intros sub i. unfold listed, filteredSubtitles.
    rewrite list_elem_of_filter. simpl. split.
    - intros [Hinc Hin]. split; [|done].
      apply list_elem_of_lookup in Hin as [j Hj].
      rewrite list_lookup_imap in Hj.
      destruct (subtitles a !! j) as [s|] eqn:Hs; [|done].
      simpl in Hj. by injection Hj as -> ->.
    - intros [Hl Hinc]. split; [done|].
      by apply (elem_of_lookup_imap_2 (fun i sub => (sub, i))). }
  split; [done|]. split.
  - unfold listed, filteredSubtitles.
    apply (filtered_indices_sorted
             (fun p => includes (sub_text p.1) subtitleSearch = true)
             (subtitles a) 0).
  - intros sub i newText Hin. apply Hmem in Hin as [Hl _].
    eexists. split.
    + unfold handleSubtitleUpdate. by rewrite Ha, Hl.
    + cbn [subtitles]. apply list_lookup_insert_eq.
      by apply lookup_lt_Some in Hl.
Qed.

(** Three subtitles searched for "lo": the first and the third are listed,
    with the indices 0 and 2. *)
Lemma search_results_keep_their_index_witness :
  let includes := fun text search : string =>
                    bool_decide (is_Some (String.index 0 search text)) in
  let a := mkAnalysis [] [] []
             [mkSubtitle 0 1 "hello"; mkSubtitle 1 2 "world";
              mkSubtitle 2 3 "so long"] [] in
  let st := handleAnalyze a (mountEffect None) in
  analysis st = Some a /\
  filteredSubtitles includes (subtitles a) "lo"
    = [(mkSubtitle 0 1 "hello", 0%nat); (mkSubtitle 2 3 "so long", 2%nat)] /\
  subtitles a !! 2%nat = Some (mkSubtitle 2 3 "so long").
Proof.
  intros includes a st.
  assert (Ha : analysis st = Some a) by reflexivity.
  destruct (search_results_keep_their_index includes st a "lo" Ha)
    as (Hmem & _ & _).
  assert (Hl : filteredSubtitles includes (subtitles a) "lo"
    = [(mkSubtitle 0 1 "hello", 0%nat); (mkSubtitle 2 3 "so long", 2%nat)])
    by (by vm_compute).
  split; [exact Ha|]. split; [exact Hl|].
  apply (Hmem (mkSubtitle 2 3 "so long") 2%nat).
  rewrite Hl. apply list_elem_of_further, list_elem_of_here.
Defined.

(** The EDL with the text of one subtitle replaced. *)
Lemma typing_step (st : AppState) (a : AnalysisResult) (index : nat)
    (old : Subtitle) (shown value : string) :
  subtitles a !! index = Some old ->
  analysis st
    = Some (mkAnalysis (cuts a) (chapters a) (zooms a)
              (<[index := mkSubtitle (sub_start old) (sub_end old) shown]>
                 (subtitles a)) (highlights a)) ->
  handleSubtitleUpdate index value st
  = Returns (pushToHistory
      (mkAnalysis (cuts a) (chapters a) (zooms a)
         (<[index := mkSubtitle (sub_start old) (sub_end old) value]>
            (subtitles a)) (highlights a)) st).
Proof.
  intros Hold Ha. pose proof (lookup_lt_Some _ _ _ Hold) as Hlen.
  unfold handleSubtitleUpdate. rewrite Ha. cbn [subtitles cuts chapters zooms highlights].
  rewrite list_lookup_insert_eq by done. cbn [sub_start sub_end].
  by rewrite list_insert_insert_eq.
Qed.

Lemma typing_all (index : nat) (old : Subtitle) (a : AnalysisResult)
    (typed : list string) :
  subtitles a !! index = Some old ->
  forall shown st,
  analysis st
    = Some (mkAnalysis (cuts a) (chapters a) (zooms a)
              (<[index := mkSubtitle (sub_start old) (sub_end old) shown]>
                 (subtitles a)) (highlights a)) ->
  (0 <= historyIndex st < Z.of_nat (length (history st)))%Z ->
  exists st',
    SubtitleItem_type index typed st = Returns st' /\
    analysis st'
      = Some (mkAnalysis (cuts a) (chapters a) (zooms a)
                (<[index := mkSubtitle (sub_start old) (sub_end old)
                              (List.last typed shown)]>
                   (subtitles a)) (highlights a)) /\
    historyIndex st' = (historyIndex st + Z.of_nat (length typed))%Z /\
    (0 <= historyIndex st' < Z.of_nat (length (history st')))%Z.
Proof.
  intros Hold. unfold SubtitleItem_type.
  induction typed as [|value typed IH] using rev_ind; intros shown st Ha Hb.
  { exists st. simpl. split; [done|]. split; [done|]. split; [lia | done]. }
  destruct (IH shown st Ha Hb) as (st1 & Hrun & Ha1 & Hi1 & Hb1).
  rewrite foldl_app. simpl. rewrite Hrun. simpl.
  rewrite (typing_step st1 a index old _ value Hold Ha1).
  eexists. split; [done|].
  destruct (pushToHistory_cursor
              (mkAnalysis (cuts a) (chapters a) (zooms a)
                 (<[index := mkSubtitle (sub_start old) (sub_end old) value]>
                    (subtitles a)) (highlights a)) st1)
    as (Hidx & _ & _ & Han & _).
  split; [by rewrite Han, List.last_last|].
  assert (Hnew : historyIndex (pushToHistory
              (mkAnalysis (cuts a) (chapters a) (zooms a)
                 (<[index := mkSubtitle (sub_start old) (sub_end old) value]>
                    (subtitles a)) (highlights a)) st1)
            = (historyIndex st1 + 1)%Z).
  { destruct (Z_of_nat_complete (historyIndex st1)) as [k Hk]; [lia|].
    rewrite (pushToHistory_at _ st1 k Hk) by lia. simpl. lia. }
  split; [rewrite Hnew, Hi1, length_app; simpl; lia|].
  rewrite Hidx in Hnew. lia.
Qed.

(** X18: cancelling the edit of a subtitle restores its text by one more
    edit.  After any number of changes typed into the text area of the
    subtitle at a valid index, [handleCancel] records an EDL equal to the
    one the editing started from; nothing is removed from the history: the
    cursor has moved by one entry for every change and one for the cancel,
    and a single undo shows the last text typed. *)
Theorem cancelling_restores_the_text (st : AppState) (a : AnalysisResult)
    (index : nat) (old : Subtitle) (typed : list string) :
  session_inv st ->
  analysis st = Some a ->
  subtitles a !! index = Some old ->
  exists st1 st2 lastTyped,
    SubtitleItem_type index typed st = Returns st1 /\
    SubtitleItem_handleCancel index (sub_text old) st1 = Returns st2 /\
    analysis st2 = Some a /\
    saved st2 = Some a /\
    historyIndex st2 = (historyIndex st + Z.of_nat (length typed) + 1)%Z /\
    analysis (undo st2) = Some lastTyped /\
    subtitles lastTyped !! index
      = Some (mkSubtitle (sub_start old) (sub_end old)
                (List.last typed (sub_text old))).
Proof.
  intros (Hinv & Hb & _) Ha Hold.
  pose proof (lookup_lt_Some _ _ _ Hold) as Hlen.
  assert (Hself : a = mkAnalysis (cuts a) (chapters a) (zooms a)
            (<[index := mkSubtitle (sub_start old) (sub_end old) (sub_text old)]>
               (subtitles a)) (highlights a)).
  { destruct a as [c ch z s h], old as [os oe ot]. simpl in *.
    by rewrite list_insert_id. }
  assert (Hb0 : (0 <= historyIndex st < Z.of_nat (length (history st)))%Z).
  { unfold history_inv in Hinv. rewrite Ha in Hinv.
    apply at_index_Some in Hinv as (i & -> & _ & Hi). lia. }
  destruct (typing_all index old a typed Hold (sub_text old) st)
    as (st1 & Hrun & Ha1 & Hi1 & Hb1); [by rewrite Ha, <- Hself | done |].
  pose proof (typing_step st1 a index old _ (sub_text old) Hold Ha1) as Hcancel.
  rewrite <- Hself in Hcancel.
  exists st1, (pushToHistory a st1),
    (mkAnalysis (cuts a) (chapters a) (zooms a)
       (<[index := mkSubtitle (sub_start old) (sub_end old)
                     (List.last typed (sub_text old))]> (subtitles a))
       (highlights a)).
  split; [done|]. split; [done|]. split; [done|]. split; [done|].
  destruct (Z_of_nat_complete (historyIndex st1)) as [k Hk]; [lia|].
  assert (Hk1 : history st1 !! k = Some
            (mkAnalysis (cuts a) (chapters a) (zooms a)
               (<[index := mkSubtitle (sub_start old) (sub_end old)
                             (List.last typed (sub_text old))]> (subtitles a))
               (highlights a))).
  { assert (Hinv1 : history_inv st1).
    { destruct typed as [|v typed _] using rev_ind.
      - simpl in Hrun. by injection Hrun as <-.
      - unfold SubtitleItem_type in Hrun. rewrite foldl_app in Hrun.
        simpl in Hrun.
        destruct (foldl _ (Returns st) typed) as [s0| |]; try done.
        simpl in Hrun. unfold handleSubtitleUpdate in Hrun.
        destruct (analysis s0) as [a0|] eqn:Ha0.
        + destruct (subtitles a0 !! index); [|done].
          injection Hrun as <-. apply history_inv_push.
        + injection Hrun as <-. unfold history_inv. rewrite Ha0.
          congruence. }
    unfold history_inv in Hinv1. rewrite Ha1 in Hinv1.
    by rewrite Hk, at_index_nonneg in Hinv1. }
  split.
  { rewrite (pushToHistory_at a st1 k Hk) by lia. simpl. lia. }
  rewrite (undo_after_push a _ st1 k Hk Hk1). split; [done|].
  cbn [subtitles]. by apply list_lookup_insert_eq.
Qed.

(** "hello world" retyped twice, then cancelled. *)
Lemma cancelling_restores_the_text_witness :
  let st := handleAnalyze edl_one_cut (mountEffect None) in
  (session_inv st /\ analysis st = Some edl_one_cut /\
   subtitles edl_one_cut !! 0%nat = Some (mkSubtitle 2 5 "hello world")) /\
  exists st1 st2,
    SubtitleItem_type 0 ["hello w"; "hello"] st = Returns st1 /\
    SubtitleItem_handleCancel 0 "hello world" st1 = Returns st2 /\
    analysis st2 = Some edl_one_cut /\ historyIndex st2 = 3%Z.
Proof.
  intros st.
  assert (Hinv : session_inv st).
  { split; [done|]. split; [simpl; lia | by intros a [= <-]]. }
  assert (Ha : analysis st = Some edl_one_cut) by reflexivity.
  assert (Hold : subtitles edl_one_cut !! 0%nat
                 = Some (mkSubtitle 2 5 "hello world")) by reflexivity.
  destruct (cancelling_restores_the_text st edl_one_cut 0 _
              ["hello w"; "hello"] Hinv Ha Hold)
    as (st1 & st2 & lastTyped & H1 & H2 & H3 & _ & H5 & _).
  split; [by repeat split|]. exists st1, st2.
  split; [exact H1|]. split; [exact H2|]. split; [exact H3 | exact H5].
Defined.

(** ** Deleting and renaming segments *)

Lemma delete_out_of_range {A} (l : list A) (i : nat) :
  (length l <= i)%nat -> delete i l = l.
Proof.
  revert i. induction l as [|x l IH]; intros i Hi; [by destruct i|].
  destruct i as [|i]; [simpl in Hi; lia|].
  simpl. f_equal. apply IH. simpl in Hi. lia.
Qed.

(** X19: deleting a cut, a subtitle or a highlight.  Each handler records
    one EDL in which only its own collection has changed: the element at
    the index is gone and the others keep their order.  An index past the
    end removes nothing, and yet the unchanged EDL is recorded as a new
    entry: the cursor moves on by one and the first undo after it shows the
    same EDL. *)
Theorem deleting_removes_one_position (st : AppState) (a : AnalysisResult)
    (index : nat) :
  session_inv st ->
  analysis st = Some a ->
  handleCutDelete index st
    = Returns (pushToHistory
        (mkAnalysis (delete index (cuts a)) (chapters a) (zooms a)
           (subtitles a) (highlights a)) st) /\
  handleSubtitleDelete index st
    = Returns (pushToHistory
        (mkAnalysis (cuts a) (chapters a) (zooms a)
           (delete index (subtitles a)) (highlights a)) st) /\
  handleHighlightDelete index st
    = Returns (pushToHistory
        (mkAnalysis (cuts a) (chapters a) (zooms a) (subtitles a)
           (delete index (highlights a))) st) /\
  (forall j, delete index (cuts a) !! j
             = if decide (j < index)%nat then cuts a !! j else cuts a !! S j) /\
  ((index < length (cuts a))%nat ->
   length (delete index (cuts a)) = (length (cuts a) - 1)%nat) /\
  ((length (cuts a) <= index)%nat ->
   handleCutDelete index st = Returns (pushToHistory a st) /\
   historyIndex (pushToHistory a st) = (historyIndex st + 1)%Z /\
   analysis (undo (pushToHistory a st)) = Some a).
Proof.
  intros (Hinv & _ & _) Ha.
  unfold handleCutDelete, handleSubtitleDelete, handleHighlightDelete.
  rewrite Ha. do 3 (split; [done|]).
  split.
  { intros j. case_decide.
    - by apply list_lookup_delete_lt.
    - apply list_lookup_delete_ge. lia. }
  split.
  { intros Hi. apply length_delete. by apply lookup_lt_is_Some_2. }
  intros Hi. rewrite (delete_out_of_range _ _ Hi).
  assert (Heta : mkAnalysis (cuts a) (chapters a) (zooms a) (subtitles a)
                   (highlights a) = a) by (by destruct a).
  rewrite Heta. split; [done|].
  unfold history_inv in Hinv. rewrite Ha in Hinv.
  apply at_index_Some in Hinv as (k & Hk & Hprev & Hlen).
  rewrite (undo_after_push a a st k Hk Hprev).
  rewrite (pushToHistory_at a st k Hk Hlen). simpl. split; [lia | done].
Qed.

(** The second of two cuts deleted, and a deletion past the end. *)
Lemma deleting_removes_one_position_witness :
  let st := handleAnalyze edl_two_cuts (mountEffect None) in
  (session_inv st /\ analysis st = Some edl_two_cuts) /\
  handleCutDelete 1 st = Returns (pushToHistory edl_one_cut st) /\
  handleCutDelete 7 st = Returns (pushToHistory edl_two_cuts st).
Proof.
  intros st.
  assert (Hinv : session_inv st).
  { split; [done|]. split; [simpl; lia | by intros a [= <-]]. }
  assert (Ha : analysis st = Some edl_two_cuts) by reflexivity.
  destruct (deleting_removes_one_position st edl_two_cuts 1 Hinv Ha)
    as (H1 & _).
  destruct (deleting_removes_one_position st edl_two_cuts 7 Hinv Ha)
    as (_ & _ & _ & _ & _ & H7).
  split; [by split|]. split; [exact H1|].
  apply H7. simpl. lia.
Defined.

(** X20: renaming from the sidebar.  Saving the label of the highlight at a
    valid index changes that label and nothing else of the highlight; typing
    a description for the zoom at a valid index changes that description
    and keeps its times, target and focus point.  Every other element and
    collection of the recorded EDL is as before. *)
Theorem renaming_keeps_the_times (st : AppState) (a : AnalysisResult)
    (index : nat) (label description : string) :
  analysis st = Some a ->
  (forall h, highlights a !! index = Some h ->
     exists newAnalysis,
       handleHighlightUpdate index (mkPartialHighlight None None (Some label)) st
         = Returns (pushToHistory newAnalysis st) /\
       highlights newAnalysis !! index
         = Some (mkHighlight (hl_start h) (hl_end h) label) /\
       (forall j, j <> index ->
                  highlights newAnalysis !! j = highlights a !! j) /\
       length (highlights newAnalysis) = length (highlights a) /\
       cuts newAnalysis = cuts a /\ chapters newAnalysis = chapters a /\
       zooms newAnalysis = zooms a /\ subtitles newAnalysis = subtitles a) /\
  (forall z, zooms a !! index = Some z ->
     exists newAnalysis,
       handleZoomUpdate index
         (mkPartialZoom None None None (Some description) None None) st
         = Returns (pushToHistory newAnalysis st) /\
       zooms newAnalysis !! index
         = Some (mkZoom (zoom_start z) (zoom_end z) (zoom_target z)
                   description (zoom_x z) (zoom_y z)) /\
       (forall j, j <> index -> zooms newAnalysis !! j = zooms a !! j) /\
       length (zooms newAnalysis) = length (zooms a) /\
       cuts newAnalysis = cuts a /\ chapters newAnalysis = chapters a /\
       subtitles newAnalysis = subtitles a /\
       highlights newAnalysis = highlights a).
Proof.
  intros Ha. split.
  - intros h Hh. pose proof (lookup_lt_Some _ _ _ Hh) as Hlen.
    eexists. split.
    { unfold handleHighlightUpdate, store_merged. by rewrite Ha, Hh. }
    cbn [highlights cuts chapters zooms subtitles].
    split; [by rewrite list_lookup_insert_eq|].
    split; [intros j Hj; by rewrite list_lookup_insert_ne|].
    split; [by rewrite length_insert|]. done.
  - intros z Hz. pose proof (lookup_lt_Some _ _ _ Hz) as Hlen.
    eexists. split.
    { unfold handleZoomUpdate, store_merged. by rewrite Ha, Hz. }
    cbn [highlights cuts chapters zooms subtitles].
    split; [by rewrite list_lookup_insert_eq|].
    split; [intros j Hj; by rewrite list_lookup_insert_ne|].
    split; [by rewrite length_insert|]. done.
Qed.

(** A promoted cut gets a label of its own. *)
Lemma renaming_keeps_the_times_witness :
  let a := mkAnalysis [] [] [] [] [mkHighlight 8 9 "Highlighted Segment"] in
  let st := handleAnalyze a (mountEffect None) in
  (analysis st = Some a /\
   highlights a !! 0%nat = Some (mkHighlight 8 9 "Highlighted Segment")) /\
  exists newAnalysis,
    handleHighlightUpdate 0 (mkPartialHighlight None None (Some "punchline")) st
      = Returns (pushToHistory newAnalysis st) /\
    highlights newAnalysis !! 0%nat = Some (mkHighlight 8 9 "punchline").
Proof.
  intros a st.
  assert (Ha : analysis st = Some a) by reflexivity.
  assert (Hh : highlights a !! 0%nat
               = Some (mkHighlight 8 9 "Highlighted Segment")) by reflexivity.
  destruct (renaming_keeps_the_times st a 0 "punchline" "" Ha) as [H _].
  destruct (H _ Hh) as (new & Hret & Hl & _).
  split; [by split|]. by exists new.
Defined.

(** ** An edit while the video is paused *)

Lemma find_insert_first {A} (f : A -> bool) (l : list A) (i : nat) (x : A) :
  (i < length l)%nat ->
  (forall j y, (j < i)%nat -> l !! j = Some y -> f y = false) ->
  f x = true ->
  find f (<[i := x]> l) = Some x.
Proof.
  intros Hi Hpre Hx. rewrite insert_take_drop by done.
  apply find_first; [|done].
  apply Forall_forall. intros y Hy.
  apply elem_of_take in Hy as (j & Hj & Hlt). by apply (Hpre j).
Qed.

(** X21: an edited subtitle shows at once.  When the text of the subtitle
    that is on screen (the first one matching the time of the video) is
    changed, the effect the player runs on the new EDL sets the subtitle
    shown to the one with the new text, without waiting for a tick and
    whether or not a cut matches that time; it leaves the zoom style, the
    skip notification and the position of the video alone. *)
Theorem edited_subtitle_shows_at_once (st st' : AppState) (a : AnalysisResult)
    (index : nat) (old : Subtitle) (newText : string) (player : PlayerState) :
  analysis st = Some a ->
  subtitles a !! index = Some old ->
  sub_start old <= videoTime player ->
  videoTime player <= sub_end old ->
  (forall j s, (j < index)%nat -> subtitles a !! j = Some s ->
               ~ (sub_start s <= videoTime player /\
                  videoTime player <= sub_end s)) ->
  handleSubtitleUpdate index newText st = Returns st' ->
  let player' :=
    run_effects player
      (onAnalysisChange (Some (videoTime player)) (analysis st')) in
  currentSubtitle player'
    = Some (mkSubtitle (sub_start old) (sub_end old) newText) /\
  zoomStyle player' = zoomStyle player /\
  skipNotification player' = skipNotification player /\
  videoTime player' = videoTime player.
Proof.
  intros Ha Hold H1 H2 Hpre Hret player'.
  pose proof (lookup_lt_Some _ _ _ Hold) as Hlen.
  unfold handleSubtitleUpdate in Hret. rewrite Ha, Hold in Hret.
  injection Hret as <-.
  unfold player', onAnalysisChange. cbn [pushToHistory analysis subtitles zooms].
  rewrite find_insert_first; [done | done | |].
  - intros j s Hj Hs. apply not_true_iff_false.
    rewrite subtitle_matches_true. by apply (Hpre j).
  - by apply subtitle_matches_true.
Qed.

(** The subtitle {2, 5} is edited while the video is paused at 3, inside
    a cut. *)
Lemma edited_subtitle_shows_at_once_witness :
  let a := mkAnalysis [mkCut 1 4 "pause"] [] [] [mkSubtitle 2 5 "hello world"] [] in
  let st := handleAnalyze a (mountEffect None) in
  let player := mkPlayer 3 3 (Some (mkSubtitle 2 5 "hello world")) None None
                  None [] in
  (analysis st = Some a /\
   subtitles a !! 0%nat = Some (mkSubtitle 2 5 "hello world") /\
   2 <= videoTime player /\ videoTime player <= 5) /\
  exists st',
    handleSubtitleUpdate 0 "hello there" st = Returns st' /\
    currentSubtitle
      (run_effects player (onAnalysisChange (Some 3) (analysis st')))
    = Some (mkSubtitle 2 5 "hello there").
Proof.
  intros a st player.
  assert (Ha : analysis st = Some a) by reflexivity.
  assert (Hold : subtitles a !! 0%nat = Some (mkSubtitle 2 5 "hello world"))
    by reflexivity.
  assert (H1 : sub_start (mkSubtitle 2 5 "hello world") <= videoTime player)
    by (by apply leb_true).
  assert (H2 : videoTime player <= sub_end (mkSubtitle 2 5 "hello world"))
    by (by apply leb_true).
  split; [by repeat split|].
  eexists. split; [reflexivity|].
  refine (proj1 (edited_subtitle_shows_at_once st _ a 0 _ "hello there" player
                   Ha Hold H1 H2 _ eq_refl)).
  intros j s Hj. lia.
Defined.
